(** * score-weaver-hub: leaderboard schema, admin panel and leaderboard view

    A shallow embedding of
    - the schema migration (tables [profiles], [user_roles],
      [leaderboard_members], their row-level security policies, the signup
      trigger [handle_new_user] and the rank trigger
      [update_ranks_on_score_change] with its function
      [update_leaderboard_ranks]),
    - the admin panel component ([fetchMembers], [updateRanks],
      [handleAddMember], [handleSaveEdit], [handleDeleteMember]),
    - the leaderboard view ([fetchLeaderboard], [checkAdminStatus]) and the
      admin gate page ([checkAdminStatus]),
    followed by the properties of the specification that concern them. *)

From Stdlib Require Import ZArith Lia Ascii String.
From stdpp Require Import base tactics option list strings sorting.

Local Open Scope Z_scope.

(** ** Platform primitives *)

(** *** A stable sort

    Both [Array.prototype.sort] (stable since ES2019) and the order the model
    gives to SQL's [ORDER BY] are stable insertion sorts: an element is placed
    in front of the first element that does not have to precede it, so
    elements that compare equal keep the order of the input.  For SQL the
    order among peers is unspecified; the input order of the list stands for
    the order in which the engine happens to scan the rows. *)

Section stable_sort.
Context {A : Type} (le : A → A → bool).

Fixpoint insert_sorted (x : A) (l : list A) : list A :=
  match l with
  | [] => [x]
  | y :: l' => if le x y then x :: y :: l' else y :: insert_sorted x l'
  end.

Definition stable_sort (l : list A) : list A := foldr insert_sorted [] l.
End stable_sort.

(** [Array.prototype.sort(compareFn)]: [a] goes before [b] when
    [compareFn(a, b) <= 0]. *)
Definition js_sort {A : Type} (compareFn : A → A → Z) (l : list A) : list A :=
  stable_sort (λ a b, compareFn a b <=? 0) l.

(** ** The schema *)

Definition uuid := string.
Definition timestamptz := Z.

(** [INTEGER]: a signed 32-bit value. *)
Definition int4 (z : Z) : bool := (-2147483648 <=? z) && (z <=? 2147483647).

(** [CREATE TYPE public.app_role AS ENUM ('admin', 'user')] *)
Inductive app_role := admin | user.

Global Instance app_role_eq_dec : EqDecision app_role.
Proof. solve_decision. Defined.

(** A row of [public.leaderboard_members]; [rank INTEGER] is nullable.  The
    same record stands for the JSON object the client receives from
    [select('*')]. *)
Module Member.
Record t := mk {
  id : uuid;
  name : string;
  score : Z;
  avatar_url : option string;
  rank : option Z;
  created_at : timestamptz;
  updated_at : timestamptz
}.

Definition set_rank (r : option Z) (m : t) : t :=
  mk (id m) (name m) (score m) (avatar_url m) r (created_at m) (updated_at m).

Definition set_updated_at (now : timestamptz) (m : t) : t :=
  mk (id m) (name m) (score m) (avatar_url m) (rank m) (created_at m) now.
End Member.

Global Instance member_eq_dec : EqDecision Member.t.
Proof. solve_decision. Defined.

(** The rows of the table.  The order of the list is the order in which a
    scan happens to return the rows; the schema does not fix it. *)
Abbreviation table := (list Member.t).

(** [id UUID PRIMARY KEY] *)
Definition primary_key (t : table) : Prop := NoDup (Member.id <$> t).

(** [score INTEGER], [rank INTEGER]: the values a row may hold. *)
Definition fits_integer_columns (m : Member.t) : bool :=
  int4 (Member.score m) && from_option int4 true (Member.rank m).

(** *** [update_updated_at_column], fired [BEFORE UPDATE ... FOR EACH ROW] *)
Definition update_updated_at_column (now : timestamptz) (NEW : Member.t) : Member.t :=
  Member.set_updated_at now NEW.

(** *** [update_leaderboard_ranks]

    [ORDER BY score DESC, created_at ASC]: [a] may precede [b]. *)
Definition rank_order (a b : Member.t) : bool :=
  (Member.score b <? Member.score a)
  || ((Member.score a =? Member.score b)
      && (Member.created_at a <=? Member.created_at b)).

(** [ROW_NUMBER() OVER (...)], numbering from [k]. *)
Fixpoint row_number (k : Z) (l : list Member.t) : list (uuid * Z) :=
  match l with
  | [] => []
  | m :: l' => (Member.id m, k) :: row_number (k + 1) l'
  end.

(** The sub-select [ranked]: [(id, new_rank)] for every row. *)
Definition ranked (t : table) : list (uuid * Z) :=
  row_number 1 (stable_sort rank_order t).

(** The join [WHERE leaderboard_members.id = ranked.id]. *)
Fixpoint lookup_rank (i : uuid) (r : list (uuid * Z)) : option Z :=
  match r with
  | [] => None
  | (j, k) :: r' => if decide (i = j) then Some k else lookup_rank i r'
  end.

(** [UPDATE ... SET rank = ranked.new_rank FROM ranked WHERE ...]: every row
    that joins is updated, and the row trigger on updates stamps it. *)
Definition set_new_rank (now : timestamptz) (r : list (uuid * Z)) (m : Member.t)
  : Member.t :=
  match lookup_rank (Member.id m) r with
  | Some k => update_updated_at_column now (Member.set_rank (Some k) m)
  | None => m
  end.

(** What the [UPDATE] in the body of the function makes of the rows.  The
    new row versions are listed where the old ones stood; the engine writes
    them elsewhere in the heap, so a later scan may return them in another
    order.  That this [UPDATE] is itself a statement on the table, with
    triggers of its own, is the business of [update_ranks_on_score_change]
    below. *)
Definition update_leaderboard_ranks (now : timestamptz) (t : table) : table :=
  set_new_rank now (ranked t) <$> t.

(** *** Identities, profiles and roles *)

(** The columns of [auth.users] that [handle_new_user] reads;
    [full_name_meta] is [raw_user_meta_data ->> 'full_name']. *)
Module AuthUser.
Record t := mk {
  id : uuid;
  email : option string;
  full_name_meta : option string
}.
End AuthUser.

Module Profile.
Record t := mk {
  id : uuid;
  email : string;
  full_name : option string;
  role : app_role;
  created_at : timestamptz;
  updated_at : timestamptz
}.
End Profile.

Module UserRole.
Record t := mk {
  id : uuid;
  user_id : uuid;
  role : app_role
}.
End UserRole.

Record database := mkDatabase {
  auth_users : list AuthUser.t;
  profiles : list Profile.t;
  user_roles : list UserRole.t;
  leaderboard_members : table
}.

Definition set_leaderboard_members (t : table) (d : database) : database :=
  mkDatabase (auth_users d) (profiles d) (user_roles d) t.

(** [has_role(_user_id, _role)] *)
Definition has_role (d : database) (_user_id : uuid) (_role : app_role) : bool :=
  bool_decide (Exists (λ r, UserRole.user_id r = _user_id ∧ UserRole.role r = _role)
                      (user_roles d)).

(** [INSERT INTO public.profiles]: primary key, and the foreign key to
    [auth.users(id)]. *)
Definition insert_profile (p : Profile.t) (d : database) : option database :=
  if decide (Profile.id p ∈ Profile.id <$> profiles d) then None
  else if decide (Profile.id p ∈ AuthUser.id <$> auth_users d)
       then Some (mkDatabase (auth_users d) (profiles d ++ [p]) (user_roles d)
                             (leaderboard_members d))
       else None.

(** [INSERT INTO public.user_roles]: primary key, [UNIQUE (user_id, role)]
    and the foreign key to [auth.users(id)]. *)
Definition insert_user_role (r : UserRole.t) (d : database) : option database :=
  if decide (UserRole.id r ∈ UserRole.id <$> user_roles d) then None
  else if decide ((UserRole.user_id r, UserRole.role r)
                    ∈ (λ x, (UserRole.user_id x, UserRole.role x)) <$> user_roles d)
       then None
  else if decide (UserRole.user_id r ∈ AuthUser.id <$> auth_users d)
       then Some (mkDatabase (auth_users d) (profiles d) (user_roles d ++ [r])
                             (leaderboard_members d))
       else None.

(** [handle_new_user]; [role_row_id] is the value [gen_random_uuid()] gives
    the new [user_roles] row.  [email TEXT NOT NULL] rejects an identity
    without an e-mail address. *)
Definition handle_new_user (now : timestamptz) (role_row_id : uuid)
    (NEW : AuthUser.t) (d : database) : option database :=
  email ← AuthUser.email NEW;
  d1 ← insert_profile
         (Profile.mk (AuthUser.id NEW) email
            (Some (default email (AuthUser.full_name_meta NEW)))
            user now now) d;
  insert_user_role (UserRole.mk role_row_id (AuthUser.id NEW) user) d1.

(** A signup: the identity provider's [INSERT INTO auth.users], and
    [on_auth_user_created] ([AFTER INSERT ... FOR EACH ROW]) in the same
    transaction.  [None] is the transaction rolled back. *)
Definition signup (now : timestamptz) (role_row_id : uuid) (NEW : AuthUser.t)
    (d : database) : option database :=
  if decide (AuthUser.id NEW ∈ AuthUser.id <$> auth_users d) then None
  else handle_new_user now role_row_id NEW
         (mkDatabase (auth_users d ++ [NEW]) (profiles d) (user_roles d)
                     (leaderboard_members d)).

(** *** Row-level security on [leaderboard_members]

    The table has row-level security enabled and two policies, both
    [TO authenticated]; [auth_uid] is [auth.uid()], the identity of the
    session, absent for an anonymous one.  Neither [USING] clause reads a
    column of the row, so a policy passes every row or none. *)

(** ["Everyone can view leaderboard" ... FOR SELECT TO authenticated
    USING (true)] *)
Definition everyone_can_view (auth_uid : option uuid) : bool :=
  match auth_uid with Some _ => true | None => false end.

(** ["Admins can manage leaderboard" ... FOR ALL TO authenticated
    USING (public.has_role(auth.uid(), 'admin'))] *)
Definition admins_can_manage (d : database) (auth_uid : option uuid) : bool :=
  match auth_uid with Some uid => has_role d uid admin | None => false end.

(** Policies are permissive: a command passes a row when one of the policies
    for that command does.  A [SELECT] is under both, a write under the
    second only. *)
Definition may_select (d : database) (auth_uid : option uuid) : bool :=
  everyone_can_view auth_uid || admins_can_manage d auth_uid.

Definition may_write (d : database) (auth_uid : option uuid) : bool :=
  admins_can_manage d auth_uid.

(** The rows a [SELECT] of the session sees. *)
Definition visible_members (d : database) (auth_uid : option uuid) : table :=
  if may_select d auth_uid then leaderboard_members d else [].

(** *** Statements on [leaderboard_members]

    [Insert] carries the rows with their column defaults resolved; [Update]
    and [Delete] carry their [SET] and [WHERE] clauses. *)
Inductive statement :=
  | Insert (rows : list Member.t)
  | Update (set : Member.t → Member.t) (where_ : Member.t → bool)
  | Delete (where_ : Member.t → bool).

(** A statement under the write policy, [allowed] being what the policy
    says for the session: an [INSERT] of a row that does not pass fails
    (42501), an [UPDATE] or [DELETE] finds the rows that pass only. *)
Definition under_policy (allowed : bool) (s : statement) : option statement :=
  match s with
  | Insert rows => if allowed then Some (Insert rows) else None
  | Update set where_ => Some (Update set (λ m, allowed && where_ m))
  | Delete where_ => Some (Delete (λ m, allowed && where_ m))
  end.

(** The statement proper.  A statement that writes a value outside 32 bits
    into an [INTEGER] column (22003), or that would break the primary key
    (23505), fails, and nothing of it is kept. *)
Definition apply_statement (now : timestamptz) (s : statement) (t : table)
  : option table :=
  match s with
  | Insert rows =>
      if forallb fits_integer_columns rows then
        let t' := t ++ rows in
        if decide (primary_key t') then Some t' else None
      else None
  | Update set where_ =>
      if forallb (λ m, negb (where_ m) || fits_integer_columns (set m)) t then
        let t' := (λ m, if where_ m
                        then update_updated_at_column now (set m) else m) <$> t in
        if decide (primary_key t') then Some t' else None
      else None
  | Delete where_ => Some (filter (λ m, negb (where_ m)) t)
  end.

(** *** [update_ranks_on_score_change]

    [AFTER INSERT OR UPDATE OR DELETE ... FOR EACH STATEMENT EXECUTE FUNCTION
    update_leaderboard_ranks()], inside the statement's transaction.  The
    body of the function is an [UPDATE] on [leaderboard_members]: a
    statement on the table of the trigger, for which the trigger is fired
    again (a statement trigger is fired whatever the number of rows, and the
    function does not look at [pg_trigger_depth()]), and in that call again.
    [depth] is the number of nested calls the stack of the engine has room
    for ([max_stack_depth]); when it is used up the engine raises 54001,
    "stack depth limit exceeded", here [None], and the outer statement is
    rolled back with everything the calls did.

    The function is not [SECURITY DEFINER]: its [UPDATE] is under the write
    policy of the session that issued the statement.  [now()] is the start
    of the transaction, the same in every call. *)
Fixpoint update_ranks_on_score_change (depth : nat) (now : timestamptz)
    (allowed : bool) (t : table) : option table :=
  match depth with
  | O => None
  | S depth' =>
      let t' := if allowed then update_leaderboard_ranks now t else t in
      update_ranks_on_score_change depth' now allowed t'
  end.

(** A statement of a session with its triggers: what is committed, or
    [None] when the statement fails. *)
Definition exec_statement (depth : nat) (now : timestamptz) (allowed : bool)
    (s : statement) (t : table) : option table :=
  s' ← under_policy allowed s;
  t' ← apply_statement now s' t;
  update_ranks_on_score_change depth now allowed t'.

(** The rows of the migration's own [INSERT INTO public.leaderboard_members
    (name, score, avatar_url) VALUES ...], with the defaults of the other
    columns: [gen_random_uuid()] is the id the engine draws for the [n]-th
    row, [rank] is null. *)
Definition sample_data (gen_random_uuid : nat → uuid) (now : timestamptz)
  : list Member.t :=
  imap (λ n '(name, score, avatar_url),
          Member.mk (gen_random_uuid n) name score (Some avatar_url) None now now)
    [("Jordyn Kenter", 96239,
      "https://images.unsplash.com/photo-1507003211169-0a1dd7228f2d?w=150&h=150&fit=crop&crop=face");
     ("Alena Bator", 84787,
      "https://images.unsplash.com/photo-1494790108755-2616b2e17c86?w=150&h=150&fit=crop&crop=face");
     ("Carl Oliver", 82139,
      "https://images.unsplash.com/photo-1472099645785-5658abf4ff4e?w=150&h=150&fit=crop&crop=face");
     ("Davis Curtis", 80857,
      "https://images.unsplash.com/photo-1500648767791-00dcc994a43e?w=150&h=150&fit=crop&crop=face");
     ("Isona Othid", 76128,
      "https://images.unsplash.com/photo-1438761681033-6461ffad8d80?w=150&h=150&fit=crop&crop=face");
     ("Makenna George", 71667,
      "https://images.unsplash.com/photo-1463453091185-61582044d556?w=150&h=150&fit=crop&crop=face");
     ("Kianna Batista", 68439,
      "https://images.unsplash.com/photo-1502685104226-ee32379fefbe?w=150&h=150&fit=crop&crop=face");
     ("Maxith Cullen", 66981,
      "https://images.unsplash.com/photo-1519345182560-3f2917c472ef?w=150&h=150&fit=crop&crop=face")].

(** ** The client platform *)

(** *** Numbers

    The values [parseInt] returns and the score fields hold: an integer
    that a double represents, one of the two infinities, or [NaN].  Negative
    zero is not told from zero: [isNaN], [||] and [JSON.stringify] treat the
    two alike. *)
Inductive number := NaN | Num (z : Z) | Infinity (negative : bool).

Global Instance number_eq_dec : EqDecision number.
Proof. solve_decision. Defined.

(** The Number value for a mathematical integer: the nearest double, a tie
    going to the even significand; from [2^1024 - 2^970] on the rounding
    reaches [2^1024], which is infinite.  Integers of size below [2^53] are
    kept as they are. *)
Definition to_number (z : Z) : number :=
  let a := Z.abs z in
  if a <? 2 ^ 53 then Num z
  else
    let e := Z.log2 a - 52 in
    let q := Z.shiftr a e in
    let r := a - Z.shiftl q e in
    let half := Z.shiftl 1 (e - 1) in
    let q' := if (half <? r) || ((r =? half) && Z.odd q) then q + 1 else q in
    let a' := Z.shiftl q' e in
    if 2 ^ 1024 <=? a' then Infinity (z <? 0) else Num (Z.sgn z * a').

(** [isNaN(x)] *)
Definition isNaN (x : number) : bool :=
  match x with NaN => true | _ => false end.


(** *** [parseInt(string)]

    ECMAScript's [parseInt] without a radix argument: leading white space is
    skipped, a sign is read, a [0x]/[0X] prefix selects radix 16, and the
    longest prefix of digits is the value, rounded to a Number; no digit at
    all is [NaN].  A character is a code unit below 256 (Latin-1); of the
    white space of the language that leaves TAB, LF, VT, FF, CR, SP and
    NBSP.  Past twenty significant digits the standard lets an engine read
    the digits that follow as zeros; the value here is the one of the digits
    as written. *)

Definition is_white_space (c : ascii) : bool :=
  let n := Z.of_N (Ascii.N_of_ascii c) in
  ((9 <=? n) && (n <=? 13)) || (n =? 32) || (n =? 160).

Fixpoint trim_start (s : string) : string :=
  match s with
  | String c s' => if is_white_space c then trim_start s' else s
  | EmptyString => EmptyString
  end.

Definition digit_value (c : ascii) : option Z :=
  let n := Z.of_N (Ascii.N_of_ascii c) in
  if (48 <=? n) && (n <=? 57) then Some (n - 48)
  else if (97 <=? n) && (n <=? 122) then Some (n - 87)
  else if (65 <=? n) && (n <=? 90) then Some (n - 55)
  else None.

Definition radix_digit (R : Z) (c : ascii) : option Z :=
  match digit_value c with
  | Some d => if d <? R then Some d else None
  | None => None
  end.

(** The longest prefix of radix-[R] digits; [acc] is [None] until a digit
    has been read. *)
Fixpoint parse_digits (R : Z) (acc : option Z) (s : string) : option Z :=
  match s with
  | String c s' =>
      match radix_digit R c with
      | Some d => parse_digits R (Some (default 0 acc * R + d)) s'
      | None => acc
      end
  | EmptyString => acc
  end.

(** The sign and what follows it. *)
Definition strip_sign (s : string) : Z * string :=
  match s with
  | String "-" r => (-1, r)
  | String "+" r => (1, r)
  | _ => (1, s)
  end.

(** The radix and the digits. *)
Definition strip_radix (s : string) : Z * string :=
  match s with
  | String "0" (String "x" r) => (16, r)
  | String "0" (String "X" r) => (16, r)
  | _ => (10, s)
  end.

Definition parseInt (s : string) : number :=
  let '(sign, s2) := strip_sign (trim_start s) in
  let '(R, s3) := strip_radix s2 in
  match parse_digits R None s3 with
  | Some n => to_number (sign * n)
  | None => NaN
  end.

(** [s || null] on a string: the empty string is falsy. *)
Definition or_null (s : string) : option string :=
  if decide (s = EmptyString) then None else Some s.

(** *** The data access client

    The queries the components issue, one constructor per call site shape.
    A score travels as the number the component holds. *)
Inductive request :=
  | SelectMembers
      (* from('leaderboard_members').select('*').order('score', {ascending: false}) *)
  | InsertMember (name : string) (score : number) (avatar_url : option string)
                 (rank : Z)
  | UpdateRank (id : uuid) (rank : Z)
  | UpdateMember (id : uuid) (name : string) (score : number)
                 (avatar_url : option string)
  | DeleteMember (id : uuid)
  | SelectAdminRole (user_id : uuid)
      (* from('user_roles').select('role').eq('user_id', ..).eq('role', 'admin').single() *)
  | GetUser.
      (* auth.getUser() *)

(** The [data] of a response. *)
Inductive payload :=
  | Null
  | Rows (rows : list Member.t)
  | Role (role : app_role)
  | User (id : uuid).

(** The [{ data, error }] a call resolves to. *)
Record response := mkResponse { data : payload; error : bool }.

(** [data || []] *)
Definition rows_or_empty (p : payload) : list Member.t :=
  match p with Rows l => l | _ => [] end.

(** Truthiness of [data]. *)
Definition truthy (p : payload) : bool :=
  match p with Null => false | _ => true end.

(** What the surroundings decide for one call: whether it goes wrong on
    the way (a transport or server failure), as an error in the response or
    as a rejected promise; the values the database would draw for
    [gen_random_uuid()] and [now()]; and the number of nested calls the
    stack of the engine has room for. *)
Inductive fault := NoFault | ErrorResponse | Thrown.

Record event := mkEvent {
  ev_fault : fault;
  ev_uuid : uuid;
  ev_now : timestamptz;
  ev_stack : nat
}.

(** [ORDER BY score DESC] *)
Definition order_by_score_desc (t : table) : list Member.t :=
  stable_sort (λ a b, Member.score b <=? Member.score a) t.

(** [UPDATE ... SET rank = r WHERE id = i] and the other column updates. *)
Definition set_fields (name : string) (score : Z) (avatar_url : option string)
    (m : Member.t) : Member.t :=
  Member.mk (Member.id m) name score avatar_url (Member.rank m)
            (Member.created_at m) (Member.updated_at m).

Definition id_is (i : uuid) (m : Member.t) : bool := bool_decide (Member.id m = i).

(** The SQL statement a writing request becomes.  [JSON.stringify] writes an
    integer as it is and [NaN] and the infinities as [null], which the
    [NOT NULL] column [score] refuses (23502): there is no statement then. *)
Definition statement_of (e : event) (q : request) : option statement :=
  match q with
  | InsertMember name (Num score) avatar_url rank =>
      Some (Insert [Member.mk (ev_uuid e) name score avatar_url (Some rank)
                              (ev_now e) (ev_now e)])
  | UpdateRank i r => Some (Update (Member.set_rank (Some r)) (id_is i))
  | UpdateMember i name (Num score) avatar_url =>
      Some (Update (set_fields name score avatar_url) (id_is i))
  | DeleteMember i => Some (Delete (id_is i))
  | _ => None
  end.

(** [.single()]: exactly one row, or an error. *)
Definition single (rows : list UserRole.t) : response :=
  match rows with
  | [r] => mkResponse (Role (UserRole.role r)) false
  | _ => mkResponse Null true
  end.

(** The server's answer to a call that reaches it, for the session
    [session], and the database afterwards.  A read of [leaderboard_members]
    returns the rows the policies let the session see.  A write is one
    statement, under the write policy and with its triggers; a statement
    that fails is answered with an error and leaves the database as it was.
    The role query is issued by the components for the id of the signed-in
    user only, whose own rows the policy "Users can view their own roles"
    lets that user read: it is answered from the rows of that id. *)
Definition serve (e : event) (session : option uuid) (q : request) (d : database)
  : response * database :=
  match q with
  | SelectMembers =>
      (mkResponse (Rows (order_by_score_desc (visible_members d session))) false, d)
  | SelectAdminRole u =>
      (single (filter (λ r, UserRole.user_id r = u ∧ UserRole.role r = admin)
                      (user_roles d)), d)
  | GetUser =>
      (mkResponse (from_option User Null session) false, d)
  | _ =>
      match statement_of e q with
      | Some s =>
          match exec_statement (ev_stack e) (ev_now e) (may_write d session) s
                               (leaderboard_members d) with
          | Some t' => (mkResponse Null false, set_leaderboard_members t' d)
          | None => (mkResponse Null true, d)
          end
      | None => (mkResponse Null true, d)
      end
  end.

(** *** The world a component runs in *)

Record toast_message := mkToast {
  title : string;
  description : string;
  variant : string
}.

Record world := mkWorld {
  db : database;              (* the hosted database *)
  session : option uuid;      (* the signed-in identity, if any *)
  env : nat → event;          (* what happens to the n-th call *)
  tick : nat;                 (* calls made so far *)
  sent : list request;        (* the calls, oldest first *)
  toasts : list toast_message;(* notifications shown, oldest first *)
  console : list string       (* console.error lines, oldest first *)
}.

(** *** Asynchronous handlers: state and exceptions

    A handler runs against the world and the state of its component; it
    finishes with a value or with a thrown exception.  A handler reads the
    component state of the render that created it (passed as an argument
    where it matters) and its [set...] calls write the state of the next one. *)
Inductive outcome (A : Type) := Done (a : A) | Threw.
Arguments Done {A} a.
Arguments Threw {A}.

Definition M (C A : Type) : Type := world → C → outcome A * world * C.

Definition ret {C A} (a : A) : M C A := λ w c, (Done a, w, c).

Definition bind {C A B} (m : M C A) (k : A → M C B) : M C B :=
  λ w c, match m w c with
         | (Done a, w', c') => k a w' c'
         | (Threw, w', c') => (Threw, w', c')
         end.

Definition throw {C A} : M C A := λ w c, (Threw, w, c).

(** [try { m } catch { h }] *)
Definition try_catch {C A} (m h : M C A) : M C A :=
  λ w c, match m w c with
         | (Threw, w', c') => h w' c'
         | r => r
         end.

(** [try { m } finally { f }] *)
Definition finally {C A} (m : M C A) (f : M C unit) : M C A :=
  λ w c, match m w c with
         | (o, w', c') =>
             match f w' c' with
             | (Done _, w'', c'') => (o, w'', c'')
             | (Threw, w'', c'') => (Threw, w'', c'')
             end
         end.

Declare Scope handler_scope.
Delimit Scope handler_scope with handler.
Notation "x <- m ;; k" := (bind m (λ x, k))
  (at level 100, m at next level, right associativity) : handler_scope.
Notation "m ;; k" := (bind m (λ _, k))
  (at level 100, right associativity) : handler_scope.

Definition modify {C} (f : C → C) : M C unit := λ w c, (Done tt, w, f c).

Definition toast {C} (t : toast_message) : M C unit :=
  λ w c, (Done tt,
          mkWorld (db w) (session w) (env w) (tick w) (sent w)
                  (toasts w ++ [t]) (console w), c).

Definition console_error {C} (line : string) : M C unit :=
  λ w c, (Done tt,
          mkWorld (db w) (session w) (env w) (tick w) (sent w)
                  (toasts w) (console w ++ [line]), c).

(** [await supabase...]: the call is recorded; it is rejected, answered with
    an error, or served. *)
Definition call {C} (q : request) : M C response :=
  λ w c,
    let e := env w (tick w) in
    let w1 d := mkWorld d (session w) (env w) (S (tick w)) (sent w ++ [q])
                        (toasts w) (console w) in
    match ev_fault e with
    | Thrown => (Threw, w1 (db w), c)
    | ErrorResponse => (Done (mkResponse Null true), w1 (db w), c)
    | NoFault =>
        let '(r, d') := serve e (session w) q (db w) in (Done r, w1 d', c)
    end.

(** [if (error) throw error] *)
Definition throw_if_error {C} (r : response) : M C unit :=
  if error r then throw else ret tt.

(** *** Avatar fallbacks

    [name.split(' ').map(n => n[0]).join('')], as both components write it.
    [split(' ')] cuts at every space, so two spaces in a row, or a space at
    either end, give an empty piece; the first character of an empty piece is
    [undefined], which [join] writes as nothing. *)
Fixpoint split_space (s : string) : list string :=
  match s with
  | EmptyString => [EmptyString]
  | String c s' =>
      if Ascii.eqb c " " then EmptyString :: split_space s'
      else match split_space s' with
           | piece :: pieces => String c piece :: pieces
           | [] => [String c EmptyString]
           end
  end.

(** [n[0]], as [join('')] writes it. *)
Definition first_char (n : string) : string :=
  match n with
  | String c _ => String c EmptyString
  | EmptyString => EmptyString
  end.

(** [pieces.join('')] *)
Definition join_empty (pieces : list string) : string :=
  foldr String.append EmptyString pieces.

Definition initials (name : string) : string :=
  join_empty (first_char <$> split_space name).

Local Open Scope handler_scope.
(** ** The admin panel component *)

Module AdminPanel.

Record editing_member := mkEditing {
  em_id : uuid;
  em_name : string;
  em_score : number;
  em_avatar_url : string
}.

Record new_member := mkNew {
  nm_name : string;
  nm_score : string;
  nm_avatar_url : string
}.

(** The component's [useState] cells. *)
Record state := mkState {
  members : list Member.t;
  loading : bool;
  editingMember : option editing_member;
  newMember : new_member;
  isAddDialogOpen : bool
}.

Definition initial : state :=
  mkState [] true None (mkNew "" "" "") false.

Definition setMembers (l : list Member.t) : M state unit :=
  modify (λ s, mkState l (loading s) (editingMember s) (newMember s)
                       (isAddDialogOpen s)).
Definition setLoading (b : bool) : M state unit :=
  modify (λ s, mkState (members s) b (editingMember s) (newMember s)
                       (isAddDialogOpen s)).
Definition setEditingMember (e : option editing_member) : M state unit :=
  modify (λ s, mkState (members s) (loading s) e (newMember s)
                       (isAddDialogOpen s)).
Definition setNewMember (n : new_member) : M state unit :=
  modify (λ s, mkState (members s) (loading s) (editingMember s) n
                       (isAddDialogOpen s)).
Definition setIsAddDialogOpen (b : bool) : M state unit :=
  modify (λ s, mkState (members s) (loading s) (editingMember s) (newMember s) b).

Definition fetchMembers : M state unit :=
  finally
    (try_catch
       (r <- call SelectMembers ;;
        throw_if_error r ;;
        setMembers (rows_or_empty (data r)))
       (console_error "Error fetching members:" ;;
        toast (mkToast "Error" "Failed to fetch leaderboard members" "destructive")))
    (setLoading false).

(** The [for] loop of [updateRanks] from index [i] on, over the rest of
    [sortedMembers]. *)
Fixpoint rank_loop (i : Z) (sortedMembers : list Member.t) : M state unit :=
  match sortedMembers with
  | [] => ret tt
  | m :: rest =>
      r <- call (UpdateRank (Member.id m) (i + 1)) ;;
      throw_if_error r ;;
      rank_loop (i + 1) rest
  end.

(** [(a, b) => b.score - a.score] *)
Definition by_score_desc (a b : Member.t) : Z := Member.score b - Member.score a.

(** [members] is the list of the render whose handler is running. *)
Definition updateRanks (members : list Member.t) : M state unit :=
  try_catch
    (let sortedMembers := js_sort by_score_desc members in
     rank_loop 0 sortedMembers ;;
     fetchMembers)
    (console_error "Error updating ranks:").

(** [this] is the state of the render whose button was clicked. *)
Definition handleAddMember (this : state) : M state unit :=
  try_catch
    (let score := parseInt (nm_score (newMember this)) in
     if isNaN score then
       toast (mkToast "Invalid Score" "Please enter a valid number for the score"
                      "destructive")
     else
       r <- call (InsertMember (nm_name (newMember this))
                               score
                               (or_null (nm_avatar_url (newMember this)))
                               (Z.of_nat (length (members this)) + 1)) ;;
       throw_if_error r ;;
       updateRanks (members this) ;;
       setNewMember (mkNew "" "" "") ;;
       setIsAddDialogOpen false ;;
       toast (mkToast "Success" "Member added successfully!" "default"))
    (console_error "Error adding member:" ;;
     toast (mkToast "Error" "Failed to add member" "destructive")).

Definition handleEditMember (member : Member.t) : M state unit :=
  setEditingMember
    (Some (mkEditing (Member.id member) (Member.name member)
                     (Num (Member.score member))
                     (default "" (Member.avatar_url member)))).

(** The [onChange] handlers of the row being edited. *)
Definition onChangeEditName (this : state) (value : string) : M state unit :=
  match editingMember this with
  | Some e => setEditingMember
                (Some (mkEditing (em_id e) value (em_score e) (em_avatar_url e)))
  | None => ret tt
  end.


Definition handleSaveEdit (this : state) : M state unit :=
  match editingMember this with
  | None => ret tt
  | Some e =>
      try_catch
        (r <- call (UpdateMember (em_id e) (em_name e) (em_score e)
                                 (or_null (em_avatar_url e))) ;;
         throw_if_error r ;;
         updateRanks (members this) ;;
         setEditingMember None ;;
         toast (mkToast "Success" "Member updated successfully!" "default"))
        (console_error "Error updating member:" ;;
         toast (mkToast "Error" "Failed to update member" "destructive"))
  end.

Definition handleDeleteMember (this : state) (id : uuid) : M state unit :=
  try_catch
    (r <- call (DeleteMember id) ;;
     throw_if_error r ;;
     updateRanks (members this) ;;
     toast (mkToast "Success" "Member deleted successfully!" "default"))
    (console_error "Error deleting member:" ;;
     toast (mkToast "Error" "Failed to delete member" "destructive")).

(** What [getRankBadge] returns: one of the three medal badges, or the
    outline badge that prints the rank. *)
Inductive badge := Champion | RunnerUp | ThirdPlace | Outline (rank : option Z).

Global Instance badge_eq_dec : EqDecision badge.
Proof. solve_decision. Defined.

Definition getRankBadge (rank : option Z) : badge :=
  match rank with
  | Some 1 => Champion
  | Some 2 => RunnerUp
  | Some 3 => ThirdPlace
  | _ => Outline rank
  end.

(** The three stats cards: [members.length], the score of [members[0]] and
    the name of [members[0]], with their values for an empty list. *)
Definition totalMembers (s : state) : nat := length (members s).

Definition highestScore (s : state) : Z :=
  match members s with
  | m :: _ => Member.score m
  | [] => 0
  end.

Definition currentLeader (s : state) : string :=
  match members s with
  | m :: _ => Member.name m
  | [] => "None"
  end.

(** The rows of the members table: badge, avatar fallback and member. *)
Definition table_rows (s : state) : list (badge * string * Member.t) :=
  (λ member, (getRankBadge (Member.rank member), initials (Member.name member),
              member)) <$> members s.

(** [members.length === 0 && ...]: the "No Members Yet" block is shown. *)
Definition emptyState (s : state) : bool := bool_decide (length (members s) = 0%nat).

End AdminPanel.

(** ** The leaderboard view *)

Module Leaderboard.

Record state := mkState {
  members : list Member.t;
  loading : bool;
  isAdmin : bool
}.

Definition initial : state := mkState [] true false.

Definition setMembers (l : list Member.t) : M state unit :=
  modify (λ s, mkState l (loading s) (isAdmin s)).
Definition setLoading (b : bool) : M state unit :=
  modify (λ s, mkState (members s) b (isAdmin s)).
Definition setIsAdmin (b : bool) : M state unit :=
  modify (λ s, mkState (members s) (loading s) b).

(** [(member, idx) => ({ ...member, rank: idx + 1 })] *)
Definition with_position (idx : nat) (member : Member.t) : Member.t :=
  Member.set_rank (Some (Z.of_nat idx + 1)) member.

Definition fetchLeaderboard : M state unit :=
  finally
    (try_catch
       (r <- call SelectMembers ;;
        throw_if_error r ;;
        let rankedMembers := imap with_position (rows_or_empty (data r)) in
        setMembers rankedMembers)
       (console_error "Error fetching leaderboard:"))
    (setLoading false).

Definition checkAdminStatus : M state unit :=
  try_catch
    (u <- call GetUser ;;
     match data u with
     | User uid =>
         r <- call (SelectAdminRole uid) ;;
         if truthy (data r) then setIsAdmin true else ret tt
     | _ => ret tt
     end)
    (ret tt).

(** [members.slice(0, 3)] and [members.slice(3)] *)
Definition topThree (s : state) : list Member.t := take 3 (members s).
Definition remaining (s : state) : list Member.t := drop 3 (members s).

(** What is rendered: the podium cards with the [position] each is given
    (silver, gold, bronze in document order), and the rows with the rank
    each shows. *)
Definition podium_card (s : state) (i : nat) (position : Z)
  : list (Z * Member.t) :=
  match topThree s !! i with
  | Some member => [(position, member)]
  | None => []
  end.

Definition podium (s : state) : list (Z * Member.t) :=
  podium_card s 1 2 ++ podium_card s 0 1 ++ podium_card s 2 3.

Definition rankings (s : state) : list (option Z * Member.t) :=
  (λ member, (Member.rank member, member)) <$> remaining s.

(** The icon components [getRankIcon] chooses between. *)
Inductive icon := Crown | Trophy | Medal | Award.

Definition getRankIcon (rank : option Z) : icon :=
  match rank with
  | Some 1 => Crown
  | Some 2 => Trophy
  | Some 3 => Medal
  | _ => Award
  end.

Definition getRankStyle (rank : option Z) : string :=
  match rank with
  | Some 1 => "bg-gradient-gold border-2 border-primary shadow-glow-gold animate-glow-pulse"
  | Some 2 => "bg-gradient-silver border-2 border-secondary shadow-glow-silver"
  | Some 3 => "bg-gradient-bronze border-2 border-bronze shadow-glow-bronze"
  | _ => "bg-gradient-card border border-border shadow-card hover:bg-accent/20"
  end.

(** [PodiumCard]: styled and iconed by its [position]. *)
Definition PodiumCard (member : Member.t) (position : Z)
  : string * icon * Member.t :=
  (getRankStyle (Some position), getRankIcon (Some position), member).

(** [LeaderboardRow]: styled and iconed by the rank the member carries. *)
Definition LeaderboardRow (member : Member.t) : string * icon * Member.t :=
  (getRankStyle (Member.rank member), getRankIcon (Member.rank member), member).

Definition podium_cards (s : state) : list (string * icon * Member.t) :=
  (λ p, PodiumCard p.2 p.1) <$> podium s.

Definition ranking_rows (s : state) : list (string * icon * Member.t) :=
  LeaderboardRow <$> remaining s.

(** [members.length === 0 && ...]: the "No Rankings Yet" block is shown. *)
Definition emptyState (s : state) : bool := bool_decide (length (members s) = 0%nat).

End Leaderboard.

(** ** The admin gate page *)

Module Admin.

Record state := mkState {
  user : option uuid;
  isAdmin : bool;
  loading : bool
}.

Definition initial : state := mkState None false true.

Definition setUser (u : option uuid) : M state unit :=
  modify (λ s, mkState u (isAdmin s) (loading s)).
Definition setIsAdmin (b : bool) : M state unit :=
  modify (λ s, mkState (user s) b (loading s)).
Definition setLoading (b : bool) : M state unit :=
  modify (λ s, mkState (user s) (isAdmin s) b).

Definition access_denied : toast_message :=
  mkToast "Access Denied"
          "You don't have admin privileges to access this page."
          "destructive".

Definition checkAdminStatus (currentUser : option uuid) : M state unit :=
  match currentUser with
  | None => ret tt
  | Some id =>
      try_catch
        (r <- call (SelectAdminRole id) ;;
         if truthy (data r) then setIsAdmin true
         else (setIsAdmin false ;; toast access_denied))
        (setIsAdmin false ;; toast access_denied)
  end.

Definition user_of (p : payload) : option uuid :=
  match p with User id => Some id | _ => None end.

Definition checkAuthAndAdmin : M state unit :=
  finally
    (try_catch
       (u <- call GetUser ;;
        setUser (user_of (data u)) ;;
        match user_of (data u) with
        | Some id => checkAdminStatus (Some id)
        | None => ret tt
        end)
       (console_error "Error checking auth:"))
    (setLoading false).

(** The page shown for a state. *)
Inductive page := LoadingPage | AuthFormPage | AccessDeniedPage | AdminPanelPage.

Definition render (s : state) : page :=
  if loading s then LoadingPage
  else match user s with
       | None => AuthFormPage
       | Some _ => if isAdmin s then AdminPanelPage else AccessDeniedPage
       end.

(** The callback given to [onAuthStateChange]; [session_user] is
    [session?.user]. *)
Definition onAuthStateChange (event : string) (session_user : option uuid)
  : M state unit :=
  if decide (event = "SIGNED_IN") then
    setUser session_user ;; checkAdminStatus session_user
  else if decide (event = "SIGNED_OUT") then
    setUser None ;; setIsAdmin false
  else ret tt.

(** [handleAuthSuccess] *)
Definition handleAuthSuccess : M state unit := checkAuthAndAdmin.

End Admin.
(** ** Vocabulary of the specification *)

(** Running a handler: what it leaves behind. *)
Definition outcome_of {C A} (m : M C A) (w : world) (c : C) : outcome A := (m w c).1.1.
Definition world_after {C A} (m : M C A) (w : world) (c : C) : world := (m w c).1.2.
Definition state_after {C A} (m : M C A) (w : world) (c : C) : C := (m w c).2.

(** "Score descending, ties broken by earliest creation time": [a] may stand
    before [b]. *)
Definition precedes (a b : Member.t) : Prop :=
  Member.score b < Member.score a
  ∨ (Member.score a = Member.score b ∧ Member.created_at a ≤ Member.created_at b).

(** "Score descending" alone. *)
Definition score_desc (a b : Member.t) : Prop := Member.score b ≤ Member.score a.

(** The rank values of a table form the sequence 1..N along that ordering:
    read in rank order, the rows carry 1, 2, ..., N and every row may stand
    before the ones after it. *)
Definition ranked_1_to_N (t : table) : Prop :=
  ∃ l, l ≡ₚ t
       ∧ Member.rank <$> l = Some <$> seqZ 1 (Z.of_nat (length t))
       ∧ StronglySorted precedes l.

(** A row with its rank column blanked: what a row is apart from its rank. *)
Definition apart_from_rank (m : Member.t) : Member.t := Member.set_rank None m.


(** The query of the admin check returns a row: [user_roles] holds exactly
    one [admin] row for the identity. *)
Definition returns_admin_row (d : database) (u : uuid) : Prop :=
  ∃ r, filter (λ r, UserRole.user_id r = u ∧ UserRole.role r = admin) (user_roles d)
       = [r].

(** The constraints between the identity tables: the primary key of
    [auth.users] and the foreign keys into it. *)
Definition identities_consistent (d : database) : Prop :=
  NoDup (AuthUser.id <$> auth_users d)
  ∧ (∀ p, p ∈ profiles d → Profile.id p ∈ AuthUser.id <$> auth_users d)
  ∧ (∀ r, r ∈ user_roles d → UserRole.user_id r ∈ AuthUser.id <$> auth_users d).

(** The ranks a table holds, by id. *)
Definition ranks_of (t : table) : list (uuid * option Z) :=
  (λ m, (Member.id m, Member.rank m)) <$> t.

(** The panel with the add dialog open on a filled form. *)
Definition adding (members : list Member.t) (name score : string) : AdminPanel.state :=
  AdminPanel.mkState members false None (AdminPanel.mkNew name score "") true.

(** The panel with a row loaded into the draft. *)
Definition editing (members : list Member.t) (m : Member.t) : AdminPanel.state :=
  AdminPanel.mkState members false
    (Some (AdminPanel.mkEditing (Member.id m) (Member.name m)
                                (Num (Member.score m)) ""))
    (AdminPanel.mkNew "" "" "") false.

(** What a row is apart from the two columns the triggers write, [rank] and
    [updated_at]. *)
Definition content (m : Member.t) : uuid * string * Z * option string * timestamptz :=
  (Member.id m, Member.name m, Member.score m, Member.avatar_url m,
   Member.created_at m).

(** The table carries the ranks the rank trigger function gives it. *)
Definition as_trigger_left (t : table) : Prop :=
  ranks_of t = ranks_of (update_leaderboard_ranks 0 t).

(** [UNIQUE (user_id, role)] on [user_roles]. *)
Definition unique_user_role (d : database) : Prop :=
  NoDup ((λ r, (UserRole.user_id r, UserRole.role r)) <$> user_roles d).


(** The calls that write to [leaderboard_members]. *)
Definition is_write (q : request) : bool :=
  match q with
  | InsertMember _ _ _ _ | UpdateRank _ _ | UpdateMember _ _ _ _ | DeleteMember _ => true
  | _ => false
  end.

(** The world after the call [q] has been recorded and has left the
    database as it was. *)
Definition after_call (w : world) (q : request) : world :=
  mkWorld (db w) (session w) (env w) (S (tick w)) (sent w ++ [q]) (toasts w)
          (console w).

(** *** Numeric strings *)

Definition is_decimal_digit (c : ascii) : bool :=
  let n := Z.of_N (Ascii.N_of_ascii c) in (48 <=? n) && (n <=? 57).

Definition is_hex_digit (c : ascii) : bool :=
  let n := Z.of_N (Ascii.N_of_ascii c) in
  is_decimal_digit c || ((97 <=? n) && (n <=? 102)) || ((65 <=? n) && (n <=? 70)).


(** A string without its sign, if it starts with one. *)
Definition without_sign (s : string) : string :=
  match s with
  | String "-" r => r
  | String "+" r => r
  | _ => s
  end.


(** A string starts with digits: with a decimal digit, or with [0x] or [0X]
    and a hexadecimal digit. *)
Definition starts_with_digits (s : string) : bool :=
  match s with
  | String "0" (String "x" r) =>
      match r with String c _ => is_hex_digit c | EmptyString => false end
  | String "0" (String "X" r) =>
      match r with String c _ => is_hex_digit c | EmptyString => false end
  | String c _ => is_decimal_digit c
  | EmptyString => false
  end.

(** A string has a leading integer: after leading white space and an
    optional sign it starts with digits. *)
Definition leading_integer (s : string) : bool :=
  starts_with_digits (without_sign (trim_start s)).

(** ** Sample data *)

(** Two members with equal scores; the one scanned first was created last. *)
Definition ann : Member.t := Member.mk "a" "Ann" 10 None (Some 2) 2 2.
Definition bob : Member.t := Member.mk "b" "Bob" 10 None (Some 1) 1 1.
Definition cy : Member.t := Member.mk "c" "Cy" 30 None (Some 1) 3 3.

(** The identity "u" holds the admin role. *)
Definition sample_database (t : table) : database :=
  mkDatabase [AuthUser.mk "u" (Some "root@example.org") None]
             [Profile.mk "u" "root@example.org" (Some "root@example.org") user 0 0]
             [UserRole.mk "r0" "u" user; UserRole.mk "r1" "u" admin] t.

(** Surroundings in which every call reaches the server, and ones in which
    the [n]-th call is answered with an error on the way. *)
Definition calm : nat → event := λ _, mkEvent NoFault "n" 9 64.
Definition failing_at (n : nat) : nat → event :=
  λ i, mkEvent (if decide (i = n) then ErrorResponse else NoFault) "n" 9 64.

(** The world of a session of the admin "u", and the one of an anonymous
    visitor. *)
Definition sample_world (t : table) (env : nat → event) : world :=
  mkWorld (sample_database t) (Some "u") env 0 [] [] [].

Definition anonymous_world (t : table) : world :=
  mkWorld (sample_database t) None calm 0 [] [] [].

(** * Properties *)

(** ** The stable sort *)

Section stable_sort_facts.
Context {A : Type} (le : A → A → bool).

Lemma stable_sort_cons x l :
  stable_sort le (x :: l) = insert_sorted le x (stable_sort le l).
Proof. reflexivity. Qed.

Lemma insert_sorted_Permutation x l : insert_sorted le x l ≡ₚ x :: l.
Proof.
  induction l as [|y l IH]; simpl; [done|].
  destruct (le x y); [done|]. rewrite IH. apply Permutation_swap.
Qed.

Lemma stable_sort_Permutation l : stable_sort le l ≡ₚ l.
Proof.
  induction l as [|x l IH]; [done|].
  by rewrite stable_sort_cons, insert_sorted_Permutation, IH.
Qed.

Lemma length_stable_sort l : length (stable_sort le l) = length l.
Proof. apply Permutation_length, stable_sort_Permutation. Qed.

Hypothesis le_total : ∀ a b, le a b = false → le b a = true.
Hypothesis le_trans : ∀ a b c, le a b = true → le b c = true → le a c = true.

Lemma insert_sorted_StronglySorted x l :
  StronglySorted le l → StronglySorted le (insert_sorted le x l).
Proof.
  induction 1 as [|y l Hl IH Hy]; simpl.
  { repeat constructor. }
  destruct (le x y) eqn:Hxy.
  - constructor; [by constructor|].
    constructor; [by rewrite Hxy|].
    eapply Forall_impl; [exact Hy|]. intros z Hz. simpl in *.
    apply Is_true_true. eapply le_trans; [exact Hxy|]. by apply Is_true_true.
  - constructor; [done|].
    rewrite insert_sorted_Permutation. constructor; [|done].
    apply Is_true_true. by apply le_total.
Qed.

Lemma stable_sort_StronglySorted l : StronglySorted le (stable_sort le l).
Proof.
  induction l; [constructor|].
  rewrite stable_sort_cons. by apply insert_sorted_StronglySorted.
Qed.
End stable_sort_facts.

(** Sorting commutes with a map that the comparison does not see. *)
Lemma stable_sort_fmap {A B} (le : A → A → bool) (le' : B → B → bool)
    (f : A → B) (l : list A) :
  (∀ a b, le' (f a) (f b) = le a b) →
  stable_sort le' (f <$> l) = f <$> stable_sort le l.
Proof.
  intros Hle. induction l as [|x l IH]; [done|].
  rewrite fmap_cons, !stable_sort_cons, IH. clear IH.
  generalize (stable_sort le l). intros k.
  induction k as [|y k IH]; [done|].
  rewrite fmap_cons. simpl. rewrite Hle.
  destruct (le x y); [done|]. by rewrite IH.
Qed.

Lemma StronglySorted_weaken {A} (R R' : relation A) l :
  (∀ a b, R a b → R' a b) → StronglySorted R l → StronglySorted R' l.
Proof.
  intros HR. induction 1 as [|x l Hl IH Hx]; constructor; [done|].
  eapply Forall_impl; [exact Hx|]. intros y. apply HR.
Qed.


(** ** The rank trigger *)

Lemma rank_order_precedes a b : rank_order a b = true ↔ precedes a b.
Proof. unfold rank_order, precedes. lia. Qed.

Lemma rank_order_total a b : rank_order a b = false → rank_order b a = true.
Proof. unfold rank_order. lia. Qed.

Lemma rank_order_trans a b c :
  rank_order a b = true → rank_order b c = true → rank_order a c = true.
Proof. unfold rank_order. lia. Qed.

Lemma ranked_order_StronglySorted t :
  StronglySorted precedes (stable_sort rank_order t).
Proof.
  eapply StronglySorted_weaken;
    [|apply stable_sort_StronglySorted;
      [apply rank_order_total | apply rank_order_trans]].
  intros a b Hab. apply rank_order_precedes. by apply Is_true_true.
Qed.

Lemma set_new_rank_id now r m : Member.id (set_new_rank now r m) = Member.id m.
Proof. unfold set_new_rank. by destruct (lookup_rank _ _). Qed.

Lemma set_new_rank_score now r m : Member.score (set_new_rank now r m) = Member.score m.
Proof. unfold set_new_rank. by destruct (lookup_rank _ _). Qed.

Lemma set_new_rank_created_at now r m :
  Member.created_at (set_new_rank now r m) = Member.created_at m.
Proof. unfold set_new_rank. by destruct (lookup_rank _ _). Qed.

Lemma set_new_rank_precedes now r a b :
  precedes a b → precedes (set_new_rank now r a) (set_new_rank now r b).
Proof.
  unfold precedes. by rewrite !set_new_rank_score, !set_new_rank_created_at.
Qed.

(** On a list without repeated ids the join gives the [i]-th row of the
    numbering the [i]-th number. *)
Lemma rank_of_row_number now k l :
  NoDup (Member.id <$> l) →
  Member.rank <$> (set_new_rank now (row_number k l) <$> l)
  = Some <$> seqZ k (Z.of_nat (length l)).
Proof.
  revert k. induction l as [|m l IH]; intros k Hnd; [done|].
  rewrite fmap_cons in Hnd. apply NoDup_cons in Hnd as [Hm Hnd].
  rewrite seqZ_cons by (simpl; lia).
  rewrite !fmap_cons. f_equal.
  - unfold set_new_rank. simpl. by rewrite decide_True.
  - replace (Z.pred (Z.of_nat (length (m :: l)))) with (Z.of_nat (length l))
      by (simpl; lia).
    rewrite <- (IH (Z.succ k) Hnd). f_equal.
    apply list_fmap_ext. intros i x Hx.
    unfold set_new_rank. simpl. rewrite decide_False; [done|].
    intros Heq. apply Hm. rewrite <- Heq.
    apply list_elem_of_fmap_2. by eapply list_elem_of_lookup_2.
Qed.

Lemma length_update_leaderboard_ranks now t :
  length (update_leaderboard_ranks now t) = length t.
Proof. unfold update_leaderboard_ranks. by rewrite length_fmap. Qed.

Lemma ids_update_leaderboard_ranks now t :
  Member.id <$> update_leaderboard_ranks now t = Member.id <$> t.
Proof.
  unfold update_leaderboard_ranks. rewrite <- list_fmap_compose.
  apply list_fmap_ext. intros i m _. apply set_new_rank_id.
Qed.

(** The trigger function establishes the ranking, whatever the ranks were. *)
Lemma update_leaderboard_ranks_ranked now t :
  primary_key t → ranked_1_to_N (update_leaderboard_ranks now t).
Proof.
  intros Hpk. unfold update_leaderboard_ranks, ranked.
  set (s := stable_sort rank_order t).
  assert (Hs : s ≡ₚ t) by apply stable_sort_Permutation.
  exists (set_new_rank now (row_number 1 s) <$> s). split; [|split].
  - by apply fmap_Permutation.
  - rewrite length_fmap, <- (Permutation_length Hs).
    apply rank_of_row_number. unfold primary_key in Hpk.
    assert (Member.id <$> s ≡ₚ Member.id <$> t) as Hids
      by (by apply fmap_Permutation).
    by rewrite Hids.
  - eapply StronglySorted_fmap; [|apply ranked_order_StronglySorted].
    intros a b. apply set_new_rank_precedes.
Qed.

(** Every row joins [ranked]. *)
Lemma lookup_rank_row_number_is_Some k l m :
  m ∈ l → is_Some (lookup_rank (Member.id m) (row_number k l)).
Proof.
  revert k. induction l as [|x l IH]; intros k Hm; [by apply elem_of_nil in Hm|].
  simpl. destruct (decide (Member.id m = Member.id x)); [by eexists|].
  apply IH. apply elem_of_cons in Hm as [->|Hm]; done.
Qed.





(** The trigger function keeps the contents of the rows. *)
Lemma content_update_leaderboard_ranks now t :
  content <$> update_leaderboard_ranks now t = content <$> t.
Proof.
  unfold update_leaderboard_ranks. rewrite <- list_fmap_compose.
  apply list_fmap_ext. intros i m _. simpl. unfold set_new_rank.
  by destruct (lookup_rank _ _), m.
Qed.

(** *** The trigger fires itself *)

Lemma update_ranks_on_score_change_aborts depth now allowed t :
  update_ranks_on_score_change depth now allowed t = None.
Proof.
  revert t. induction depth as [|depth IH]; intros t; [done|]. simpl. apply IH.
Qed.

Lemma exec_statement_aborts depth now allowed s t :
  exec_statement depth now allowed s t = None.
Proof.
  unfold exec_statement.
  destruct (under_policy allowed s) as [s'|]; simpl; [|done].
  destruct (apply_statement now s' t) as [t'|]; simpl; [|done].
  apply update_ranks_on_score_change_aborts.
Qed.

(** The server answers every write to [leaderboard_members] with an error
    and leaves the database as it was. *)
Lemma serve_write e ses q d :
  is_write q = true → serve e ses q d = (mkResponse Null true, d).
Proof.
  intros Hq. destruct q; try done; unfold serve;
    (destruct (statement_of e _) as [s|]; [|done]);
    by rewrite exec_statement_aborts.
Qed.

(** C1. The rank trigger function does compute the ranks the claim states:
    one run of its [UPDATE] on a table that obeys the primary key keeps the
    rows and leaves rank values that form the sequence 1..N along the
    ordering by score descending, ties broken by earliest creation time.
    But no insert, update or delete on [leaderboard_members] commits: the
    [UPDATE] of the function fires the trigger again, and the statement ends
    with the stack of the engine used up, whatever room it has, whoever
    issues the statement and whatever the table holds.  So every write of a
    client is answered with an error and leaves the database, ranks
    included, as it was. *)
Theorem rank_trigger_aborts_every_statement depth now allowed s t :
  exec_statement depth now allowed s t = None
  ∧ (∀ t1, primary_key t1 →
           content <$> update_leaderboard_ranks now t1 ≡ₚ content <$> t1
           ∧ primary_key (update_leaderboard_ranks now t1)
           ∧ ranked_1_to_N (update_leaderboard_ranks now t1))
  ∧ (∀ e session q d, is_write q = true →
                      serve e session q d = (mkResponse Null true, d)).
Proof.
  split; [apply exec_statement_aborts|]. split; [|apply serve_write].
  intros t1 Hpk. split; [by rewrite content_update_leaderboard_ranks|]. split.
  - unfold primary_key. by rewrite ids_update_leaderboard_ranks.
  - by apply update_leaderboard_ranks_ranked.
Qed.

(** The statement proper of the migration's sample insert goes through on
    the empty table, for the owner of the table; with the trigger it does
    not.  So does an insert into a table that holds rows, an update of a
    score and a delete, whose function call alone would leave the ranks
    3, 2, 1. *)
Example migration_sample_data_aborts :
  let ids := λ n : nat, String (Ascii.ascii_of_nat (65 + n)) EmptyString in
  apply_statement 9 (Insert (sample_data ids 9)) [] = Some (sample_data ids 9)
  ∧ exec_statement 64 9 true (Insert (sample_data ids 9)) [] = None
  ∧ exec_statement 64 9 true (Insert [cy]) [ann; bob] = None
  ∧ exec_statement 64 9 true (Update (set_fields "Bob" 40 None) (id_is "b")) [ann; bob; cy]
    = None
  ∧ exec_statement 64 9 true (Delete (id_is "b")) [ann; bob; cy] = None
  ∧ ranks_of (update_leaderboard_ranks 9 ([ann; bob] ++ [cy]))
    = [("a", Some 3); ("b", Some 2); ("c", Some 1)].
Proof. repeat split; vm_compute; reflexivity. Qed.

(** ** Calls *)

(** A write followed by [if (error) throw error] always throws, whether
    the call went wrong on the way or reached the server. *)
Lemma write_throws {C A} q (k : M C A) w (c : C) :
  is_write q = true →
  (r <- call q ;; throw_if_error r ;; k) w c = (Threw, after_call w q, c).
Proof.
  intros Hq. unfold bind, call, after_call.
  destruct (ev_fault (env w (tick w))); [|done..].
  by rewrite serve_write.
Qed.

Lemma visible_members_signed_in d ses :
  is_Some ses → visible_members d ses = leaderboard_members d.
Proof. by intros [u ->]. Qed.

Lemma visible_members_anonymous d : visible_members d None = [].
Proof. reflexivity. Qed.

(** The policies on the sample database: the admin "u" reads and writes,
    another signed-in identity reads only, an anonymous session neither
    reads nor writes. *)
Example policies_on_sample_database :
  let d := sample_database [ann] in
  (visible_members d (Some "u") = [ann] ∧ may_write d (Some "u") = true)
  ∧ (visible_members d (Some "v") = [ann] ∧ may_write d (Some "v") = false)
  ∧ (visible_members d None = [] ∧ may_write d None = false).
Proof. repeat split; reflexivity. Qed.

Lemma fetchMembers_served w c :
  ev_fault (env w (tick w)) = NoFault →
  AdminPanel.fetchMembers w c
  = (Done tt, after_call w SelectMembers,
     AdminPanel.mkState (order_by_score_desc (visible_members (db w) (session w)))
                        false (AdminPanel.editingMember c) (AdminPanel.newMember c)
                        (AdminPanel.isAddDialogOpen c)).
Proof.
  intros Hf. unfold AdminPanel.fetchMembers, finally, try_catch, bind, call.
  by rewrite Hf.
Qed.


Lemma fetchMembers_done w c : outcome_of AdminPanel.fetchMembers w c = Done tt.
Proof.
  unfold outcome_of, AdminPanel.fetchMembers, finally, try_catch, bind, call.
  by destruct (ev_fault (env w (tick w))).
Qed.

Lemma fetchMembers_db w c : db (world_after AdminPanel.fetchMembers w c) = db w.
Proof.
  unfold world_after, AdminPanel.fetchMembers, finally, try_catch, bind, call.
  by destruct (ev_fault (env w (tick w))).
Qed.

(** ** The rank loop of the admin panel *)

(** The loop stops at its first update. *)
Lemma rank_loop_cons i m rest w c :
  AdminPanel.rank_loop i (m :: rest) w c
  = (Threw, after_call w (UpdateRank (Member.id m) (i + 1)), c).
Proof. simpl. by rewrite write_throws. Qed.

Lemma updateRanks_nil members w c :
  js_sort AdminPanel.by_score_desc members = [] →
  AdminPanel.updateRanks members w c = AdminPanel.fetchMembers w c.
Proof.
  intros Hs. unfold AdminPanel.updateRanks, try_catch, bind. rewrite Hs. simpl.
  pose proof (fetchMembers_done w c) as Hd. unfold outcome_of in Hd.
  destruct (AdminPanel.fetchMembers w c) as [[o w'] c']. simpl in Hd. by subst.
Qed.

Lemma updateRanks_cons members w c m rest :
  js_sort AdminPanel.by_score_desc members = m :: rest →
  AdminPanel.updateRanks members w c
  = (Done tt,
     mkWorld (db w) (session w) (env w) (S (tick w))
             (sent w ++ [UpdateRank (Member.id m) 1]) (toasts w)
             (console w ++ ["Error updating ranks:"]),
     c).
Proof.
  intros Hs. unfold AdminPanel.updateRanks, try_catch. rewrite Hs.
  unfold bind at 1. by rewrite rank_loop_cons.
Qed.

Lemma updateRanks_db members w c :
  db (world_after (AdminPanel.updateRanks members) w c) = db w.
Proof.
  unfold world_after.
  destruct (js_sort AdminPanel.by_score_desc members) as [|m rest] eqn:Hs.
  - rewrite updateRanks_nil by done. apply fetchMembers_db.
  - by erewrite updateRanks_cons.
Qed.

(** *** The client's order and the trigger's *)



Lemma precedes_score_desc a b : precedes a b → score_desc a b.
Proof. unfold precedes, score_desc. lia. Qed.





(** *** When an update of the loop fails *)




(** ** Parsing a score *)

Lemma to_number_not_NaN z : isNaN (to_number z) = false.
Proof.
  unfold to_number. cbv zeta.
  destruct (Z.abs z <? 2 ^ 53); [done|].
  by destruct (2 ^ 1024 <=? _).
Qed.

Lemma parse_digits_is_Some R a s : is_Some (parse_digits R (Some a) s).
Proof.
  revert a. induction s as [|c s IH]; intros a; simpl; [by eexists|].
  destruct (radix_digit R c); [apply IH|by eexists].
Qed.

(** Whether there is a number is decided by the first character after the
    sign and the prefix. *)
Lemma parse_digits_None R s :
  parse_digits R None s = None
  ↔ match s with String c _ => radix_digit R c = None | EmptyString => True end.
Proof.
  destruct s as [|c s]; simpl; [done|].
  destruct (radix_digit R c) as [d|]; [|done].
  destruct (parse_digits_is_Some R (0 * R + d) s) as [n ->]. done.
Qed.

Lemma radix_digit_10 c : radix_digit 10 c = None ↔ is_decimal_digit c = false.
Proof. destruct c as [[] [] [] [] [] [] [] []]; vm_compute; done. Qed.

Lemma radix_digit_16 c : radix_digit 16 c = None ↔ is_hex_digit c = false.
Proof. destruct c as [[] [] [] [] [] [] [] []]; vm_compute; done. Qed.

Lemma strip_sign_without_sign s : (strip_sign s).2 = without_sign s.
Proof.
  destruct s as [|c r]; [done|].
  destruct c as [[] [] [] [] [] [] [] []]; done.
Qed.

Lemma starts_with_digits_strip_radix s :
  starts_with_digits s
  = match strip_radix s with
    | (R, String c _) => bool_decide (radix_digit R c ≠ None)
    | (_, EmptyString) => false
    end.
Proof.
  assert (H10 : ∀ c, is_decimal_digit c = bool_decide (radix_digit 10 c ≠ None)).
  { intros c. pose proof (radix_digit_10 c). destruct (is_decimal_digit c); symmetry.
    - apply bool_decide_eq_true. intuition congruence.
    - apply bool_decide_eq_false. intuition congruence. }
  assert (H16 : ∀ c, is_hex_digit c = bool_decide (radix_digit 16 c ≠ None)).
  { intros c. pose proof (radix_digit_16 c). destruct (is_hex_digit c); symmetry.
    - apply bool_decide_eq_true. intuition congruence.
    - apply bool_decide_eq_false. intuition congruence. }
  destruct s as [|c r]; [done|].
  destruct (decide (c = "0"%char)) as [->|Hc].
  - destruct r as [|c2 r2]; [done|].
    destruct (decide (c2 = "x"%char)) as [->|Hx].
    { simpl. destruct r2 as [|c3 r3]; [done|]. apply H16. }
    destruct (decide (c2 = "X"%char)) as [->|HX].
    { simpl. destruct r2 as [|c3 r3]; [done|]. apply H16. }
    destruct c2 as [[] [] [] [] [] [] [] []]; done.
  - transitivity (is_decimal_digit c); [|rewrite H10].
    all: destruct c as [[] [] [] [] [] [] [] []]; done.
Qed.

(** [parseInt] gives a number exactly for the strings that have a leading
    integer. *)
Lemma isNaN_parseInt s : isNaN (parseInt s) = negb (leading_integer s).
Proof.
  unfold leading_integer. rewrite <- strip_sign_without_sign.
  rewrite starts_with_digits_strip_radix. unfold parseInt.
  destruct (strip_sign (trim_start s)) as [sign s2]. simpl.
  destruct (strip_radix s2) as [R s3].
  pose proof (parse_digits_None R s3) as HN.
  destruct (parse_digits R None s3) as [n|].
  - rewrite to_number_not_NaN. destruct s3 as [|c r].
    + by destruct HN as [_ HN]; discriminate HN.
    + symmetry. apply negb_false_iff, bool_decide_eq_true. intuition congruence.
  - destruct s3 as [|c r]; [done|]. symmetry.
    apply negb_true_iff, bool_decide_eq_false. intuition congruence.
Qed.





(** The double nearest to an integer: exact below [2^53], rounded above,
    infinite from [2^1024 - 2^970] on; and [parseInt] on some strings. *)
Example to_number_rounds :
  to_number (2 ^ 53 - 1) = Num (2 ^ 53 - 1)
  ∧ to_number (2 ^ 53 + 1) = Num (2 ^ 53)
  ∧ to_number (2 ^ 53 + 3) = Num (2 ^ 53 + 4)
  ∧ to_number (2 ^ 1024 - 2 ^ 970 - 1) = Num ((2 ^ 53 - 1) * 2 ^ 971)
  ∧ to_number (2 ^ 1024 - 2 ^ 970) = Infinity false
  ∧ to_number (- 10 ^ 400) = Infinity true.
Proof. repeat split; vm_compute; reflexivity. Qed.

Example parseInt_on_sample_strings :
  parseInt "50" = Num 50
  ∧ parseInt "  -7" = Num (-7)
  ∧ parseInt "12abc" = Num 12
  ∧ parseInt "1,000" = Num 1
  ∧ parseInt "12.5" = Num 12
  ∧ parseInt "1e3" = Num 1
  ∧ parseInt "0x1A" = Num 26
  ∧ parseInt "9007199254740993" = Num 9007199254740992
  ∧ parseInt (String (Ascii.ascii_of_nat 160) "7") = Num 7
  ∧ parseInt "" = NaN
  ∧ parseInt "fifty" = NaN
  ∧ parseInt "0x" = NaN
  ∧ parseInt "-" = NaN.
Proof. repeat split; vm_compute; reflexivity. Qed.

(** ** Adding a member *)

Lemma handleAddMember_rejects this w c :
  isNaN (parseInt (AdminPanel.nm_score (AdminPanel.newMember this))) = true →
  AdminPanel.handleAddMember this w c
  = (Done tt,
     mkWorld (db w) (session w) (env w) (tick w) (sent w)
             (toasts w ++ [mkToast "Invalid Score"
                                   "Please enter a valid number for the score"
                                   "destructive"])
             (console w),
     c).
Proof. intros Hs. unfold AdminPanel.handleAddMember. cbv zeta. by rewrite Hs. Qed.

(** An add whose score is a number issues the insert, which is refused. *)
Lemma handleAddMember_refused this w c :
  isNaN (parseInt (AdminPanel.nm_score (AdminPanel.newMember this))) = false →
  AdminPanel.handleAddMember this w c
  = (Done tt,
     mkWorld (db w) (session w) (env w) (S (tick w))
             (sent w ++ [InsertMember
                           (AdminPanel.nm_name (AdminPanel.newMember this))
                           (parseInt (AdminPanel.nm_score (AdminPanel.newMember this)))
                           (or_null (AdminPanel.nm_avatar_url (AdminPanel.newMember this)))
                           (Z.of_nat (length (AdminPanel.members this)) + 1)])
             (toasts w ++ [mkToast "Error" "Failed to add member" "destructive"])
             (console w ++ ["Error adding member:"]),
     c).
Proof.
  intros Hs. unfold AdminPanel.handleAddMember, try_catch. cbv zeta.
  rewrite Hs. by rewrite write_throws.
Qed.



(** The two cases on inputs: a word is rejected, a number with a unit is
    not. *)
Example handleAddMember_on_sample_inputs :
  leading_integer "fifty" = false
  ∧ toasts (world_after (AdminPanel.handleAddMember (adding [cy] "Dee" "fifty"))
                        (sample_world [cy] calm) (adding [cy] "Dee" "fifty"))
    = [mkToast "Invalid Score" "Please enter a valid number for the score"
               "destructive"]
  ∧ leading_integer "50 points" = true
  ∧ sent (world_after (AdminPanel.handleAddMember (adding [cy] "Dee" "50 points"))
                      (sample_world [cy] calm) (adding [cy] "Dee" "50 points"))
    = [InsertMember "Dee" (Num 50) None 2].
Proof. repeat split; reflexivity. Qed.

(** C3. An add with a score that parses as an integer (an input with a
    leading integer) issues the insert with the placeholder rank, the number
    of loaded members plus one, and that is all it does to the database: the
    insert is refused, whether on the way or by the database itself, so no
    row is stored; the handler goes to its [catch] block, logs the error and
    shows "Failed to add member"; [updateRanks] is not run, so no rank is
    recomputed and the list is not reloaded; the form stays filled and
    open. *)
Theorem handleAddMember_insert_is_refused this w c :
  leading_integer (AdminPanel.nm_score (AdminPanel.newMember this)) = true →
  AdminPanel.handleAddMember this w c
  = (Done tt,
     mkWorld (db w) (session w) (env w) (S (tick w))
             (sent w ++ [InsertMember
                           (AdminPanel.nm_name (AdminPanel.newMember this))
                           (parseInt (AdminPanel.nm_score (AdminPanel.newMember this)))
                           (or_null (AdminPanel.nm_avatar_url (AdminPanel.newMember this)))
                           (Z.of_nat (length (AdminPanel.members this)) + 1)])
             (toasts w ++ [mkToast "Error" "Failed to add member" "destructive"])
             (console w ++ ["Error adding member:"]),
     c).
Proof.
  intros Hs. apply handleAddMember_refused. by rewrite isNaN_parseInt, Hs.
Qed.

Lemma handleAddMember_insert_is_refused_witness :
  AdminPanel.handleAddMember (adding [cy] "Dee" "50") (sample_world [cy] calm)
                             (adding [cy] "Dee" "50")
  = (Done tt,
     mkWorld (sample_database [cy]) (Some "u") calm 1
             ([] ++ [InsertMember "Dee" (Num 50) None 2])
             ([] ++ [mkToast "Error" "Failed to add member" "destructive"])
             ([] ++ ["Error adding member:"]),
     adding [cy] "Dee" "50").
Proof.
  apply (handleAddMember_insert_is_refused (adding [cy] "Dee" "50")
           (sample_world [cy] calm) (adding [cy] "Dee" "50")).
  reflexivity.
Defined.

(** ** Editing a member *)

Lemma handleSaveEdit_refused this w c e :
  AdminPanel.editingMember this = Some e →
  AdminPanel.handleSaveEdit this w c
  = (Done tt,
     mkWorld (db w) (session w) (env w) (S (tick w))
             (sent w ++ [UpdateMember (AdminPanel.em_id e) (AdminPanel.em_name e)
                                      (AdminPanel.em_score e)
                                      (or_null (AdminPanel.em_avatar_url e))])
             (toasts w ++ [mkToast "Error" "Failed to update member" "destructive"])
             (console w ++ ["Error updating member:"]),
     c).
Proof.
  intros He. unfold AdminPanel.handleSaveEdit, try_catch. rewrite He.
  by rewrite write_throws.
Qed.

Lemma handleDeleteMember_refused this w c i :
  AdminPanel.handleDeleteMember this i w c
  = (Done tt,
     mkWorld (db w) (session w) (env w) (S (tick w)) (sent w ++ [DeleteMember i])
             (toasts w ++ [mkToast "Error" "Failed to delete member" "destructive"])
             (console w ++ ["Error deleting member:"]),
     c).
Proof. unfold AdminPanel.handleDeleteMember, try_catch. by rewrite write_throws. Qed.




(** ** The leaderboard view *)

Lemma fetchLeaderboard_served w c :
  ev_fault (env w (tick w)) = NoFault →
  Leaderboard.fetchLeaderboard w c
  = (Done tt, after_call w SelectMembers,
     Leaderboard.mkState
       (imap Leaderboard.with_position
             (order_by_score_desc (visible_members (db w) (session w))))
       false (Leaderboard.isAdmin c)).
Proof.
  intros Hf.
  unfold Leaderboard.fetchLeaderboard, finally, try_catch, bind, call.
  by rewrite Hf.
Qed.

Lemma apart_from_rank_with_position l :
  apart_from_rank <$> imap Leaderboard.with_position l = apart_from_rank <$> l.
Proof.
  rewrite fmap_imap, <- imap_const. apply imap_ext. by intros i [] _.
Qed.

Lemma ids_with_position l :
  Member.id <$> imap Leaderboard.with_position l = Member.id <$> l.
Proof.
  rewrite fmap_imap, <- imap_const. apply imap_ext. by intros i [] _.
Qed.

Lemma StronglySorted_imap {A} (R : relation A) (f : nat → A → A) l :
  (∀ i j a b, R a b → R (f i a) (f j b)) →
  StronglySorted R l → StronglySorted R (imap f l).
Proof.
  intros Hf Hl. revert f Hf.
  induction Hl as [|x l Hl IH Hx]; intros f Hf; [constructor|].
  rewrite imap_cons. constructor.
  - apply IH. intros i j a b. apply Hf.
  - apply Forall_forall. intros y Hy.
    apply list_elem_of_lookup in Hy as [i Hi].
    rewrite list_lookup_imap in Hi.
    destruct (l !! i) as [z|] eqn:Hz; [|done]. simpl in Hi. simplify_eq.
    apply Hf. rewrite Forall_forall in Hx. apply Hx.
    by eapply list_elem_of_lookup_2.
Qed.

Lemma order_by_score_desc_sorted t : StronglySorted score_desc (order_by_score_desc t).
Proof.
  eapply StronglySorted_weaken; [|apply stable_sort_StronglySorted].
  - intros a b Hab. apply Is_true_true in Hab. unfold score_desc.
    apply Z.leb_le in Hab. exact Hab.
  - intros a b H. apply Z.leb_gt in H. apply Z.leb_le. lia.
  - intros a b c H1 H2. apply Z.leb_le in H1, H2. apply Z.leb_le. lia.
Qed.

Lemma order_by_score_desc_apart_from_rank t :
  apart_from_rank <$> order_by_score_desc t
  = order_by_score_desc (apart_from_rank <$> t).
Proof. symmetry. by apply stable_sort_fmap. Qed.

Lemma with_position_apart_from_rank l :
  imap Leaderboard.with_position (apart_from_rank <$> l)
  = imap Leaderboard.with_position l.
Proof. rewrite imap_fmap. apply imap_ext. by intros i [] _. Qed.

Lemma with_position_rank l i m :
  imap Leaderboard.with_position l !! i = Some m →
  Member.rank m = Some (Z.of_nat i + 1).
Proof.
  rewrite list_lookup_imap. destruct (l !! i); [|done].
  simpl. by intros [= <-].
Qed.

Lemma with_position_score_desc l :
  StronglySorted score_desc (imap Leaderboard.with_position (order_by_score_desc l)).
Proof.
  apply StronglySorted_imap; [|apply order_by_score_desc_sorted].
  by intros i j [] [].
Qed.

(** The claim of C5 as it stands fails on a tie: [ann] and [bob] have equal
    scores and [ann], created last, is shown first. *)
Lemma podium_tie_counterexample :
  let s := state_after Leaderboard.fetchLeaderboard
                       (sample_world [ann; bob] calm) Leaderboard.initial in
  Member.id <$> Leaderboard.topThree s ++ Leaderboard.remaining s = ["a"; "b"]
  ∧ ¬ StronglySorted precedes (Leaderboard.topThree s ++ Leaderboard.remaining s).
Proof.
  split; [reflexivity|]. intros H.
  change (StronglySorted precedes
            [Member.set_rank (Some 1) ann; Member.set_rank (Some 2) bob]) in H.
  inversion H as [|? ? _ Hall]; subst.
  inversion Hall as [|? ? Hp _]; subst.
  unfold precedes in Hp. simpl in Hp. lia.
Qed.

(** C5 (amended). For every member list the view fetches, the podium (the
    first three entries) followed by the remainder is the fetched list.  For
    a signed-in visitor its rows are, apart from the rank shown, exactly the
    rows of the table; for an anonymous visitor it is empty, the policies
    letting only signed-in sessions read.  No id occurs twice, and the
    scores descend; the order among equal scores is the one the query
    returned. *)
Theorem podium_and_remainder_partition w c :
  ev_fault (env w (tick w)) = NoFault →
  primary_key (leaderboard_members (db w)) →
  let s := state_after Leaderboard.fetchLeaderboard w c in
  let shown := Leaderboard.topThree s ++ Leaderboard.remaining s in
  shown = Leaderboard.members s
  ∧ (is_Some (session w) →
     apart_from_rank <$> shown ≡ₚ apart_from_rank <$> leaderboard_members (db w))
  ∧ (session w = None → shown = [])
  ∧ NoDup (Member.id <$> shown)
  ∧ StronglySorted score_desc shown.
Proof.
  intros Hf Hpk s shown.
  assert (Hshown : shown = Leaderboard.members s) by apply take_drop.
  assert (Hs : Leaderboard.members s
               = imap Leaderboard.with_position
                      (order_by_score_desc (visible_members (db w) (session w)))).
  { unfold s, state_after. by rewrite fetchLeaderboard_served. }
  rewrite Hshown, Hs. split; [done|]. split; [|split; [|split]].
  - intros Hses. rewrite visible_members_signed_in by done.
    rewrite apart_from_rank_with_position.
    apply fmap_Permutation, stable_sort_Permutation.
  - by intros ->.
  - rewrite ids_with_position.
    assert (Member.id <$> order_by_score_desc (visible_members (db w) (session w))
            ≡ₚ Member.id <$> visible_members (db w) (session w)) as ->
      by apply fmap_Permutation, stable_sort_Permutation.
    unfold visible_members. destruct (may_select _ _); [done|constructor].
  - apply with_position_score_desc.
Qed.

Lemma podium_and_remainder_partition_witness :
  let w := sample_world [ann; bob; cy] calm in
  let s := state_after Leaderboard.fetchLeaderboard w Leaderboard.initial in
  let shown := Leaderboard.topThree s ++ Leaderboard.remaining s in
  shown = Leaderboard.members s
  ∧ (is_Some (session w) →
     apart_from_rank <$> shown ≡ₚ apart_from_rank <$> leaderboard_members (db w))
  ∧ (session w = None → shown = [])
  ∧ NoDup (Member.id <$> shown)
  ∧ StronglySorted score_desc shown.
Proof.
  apply (podium_and_remainder_partition (sample_world [ann; bob; cy] calm)
           Leaderboard.initial).
  - reflexivity.
  - unfold primary_key. compute_done.
Defined.

(** A podium card shows the position of its member in the list. *)
Lemma podium_positions s position m :
  (position, m) ∈ Leaderboard.podium s →
  1 ≤ position ≤ 3 ∧ Leaderboard.members s !! Z.to_nat (position - 1) = Some m.
Proof.
  unfold Leaderboard.podium, Leaderboard.podium_card, Leaderboard.topThree.
  rewrite !elem_of_app. intros [H|[H|H]];
    match type of H with context [take 3 ?l !! ?i] =>
      destruct (take 3 l !! i) as [x|] eqn:Hx; [|by apply elem_of_nil in H];
      apply list_elem_of_singleton in H; simplify_eq;
      rewrite lookup_take_lt in Hx by lia
    end; split; done || lia.
Qed.

(** A row of the rankings shows the rank its member carries. *)
Lemma rankings_rows s i r m :
  Leaderboard.rankings s !! i = Some (r, m) →
  Leaderboard.members s !! (3 + i)%nat = Some m ∧ r = Member.rank m.
Proof.
  unfold Leaderboard.rankings, Leaderboard.remaining.
  rewrite list_lookup_fmap, lookup_drop.
  destruct (Leaderboard.members s !! (3 + i)%nat); [|done].
  simpl. by intros [= <- <-].
Qed.

(** The claim of C6 as it stands fails for a visitor who is not signed in:
    the call is served without an error, the table holds three members, and
    the view fetches none of them and shows its empty state. *)
Lemma fetchLeaderboard_anonymous_counterexample :
  let w := anonymous_world [ann; bob; cy] in
  let s := state_after Leaderboard.fetchLeaderboard w Leaderboard.initial in
  ev_fault (env w (tick w)) = NoFault
  ∧ leaderboard_members (db w) = [ann; bob; cy]
  ∧ Leaderboard.members s = []
  ∧ Leaderboard.emptyState s = true.
Proof. repeat split; reflexivity. Qed.

(** C6 (amended). On load the view asks for all members ordered by score
    descending.  A signed-in visitor gets every row of the table, an
    anonymous visitor none; the list is in descending order of score.  The
    rank the view shows for a member is the member's 1-indexed position in
    the fetched list: in the list it keeps, on the podium cards and in the
    rows below.  The stored rank column has no part in it: two tables that
    differ in their rank columns only give the same list. *)
Theorem fetchLeaderboard_ranks_by_position w c :
  ev_fault (env w (tick w)) = NoFault →
  let s := state_after Leaderboard.fetchLeaderboard w c in
  sent (world_after Leaderboard.fetchLeaderboard w c) = sent w ++ [SelectMembers]
  ∧ (is_Some (session w) →
     apart_from_rank <$> Leaderboard.members s
     ≡ₚ apart_from_rank <$> leaderboard_members (db w))
  ∧ (session w = None → Leaderboard.members s = [])
  ∧ StronglySorted score_desc (Leaderboard.members s)
  ∧ (∀ i m, Leaderboard.members s !! i = Some m →
            Member.rank m = Some (Z.of_nat i + 1))
  ∧ (∀ position m, (position, m) ∈ Leaderboard.podium s →
                   1 ≤ position ≤ 3
                   ∧ Leaderboard.members s !! Z.to_nat (position - 1) = Some m)
  ∧ (∀ i r m, Leaderboard.rankings s !! i = Some (r, m) →
              Leaderboard.members s !! (3 + i)%nat = Some m
              ∧ r = Some (Z.of_nat (3 + i) + 1))
  ∧ (∀ w2 c2, ev_fault (env w2 (tick w2)) = NoFault →
              (is_Some (session w2) ↔ is_Some (session w)) →
              apart_from_rank <$> leaderboard_members (db w2)
              = apart_from_rank <$> leaderboard_members (db w) →
              Leaderboard.members (state_after Leaderboard.fetchLeaderboard w2 c2)
              = Leaderboard.members s).
Proof.
  intros Hf s.
  assert (Hs : Leaderboard.members s
               = imap Leaderboard.with_position
                      (order_by_score_desc (visible_members (db w) (session w)))).
  { unfold s, state_after. by rewrite fetchLeaderboard_served. }
  split; [|split; [|split; [|split; [|split; [|split; [|split]]]]]].
  - unfold world_after. by rewrite fetchLeaderboard_served.
  - intros Hses. rewrite Hs, visible_members_signed_in by done.
    rewrite apart_from_rank_with_position.
    apply fmap_Permutation, stable_sort_Permutation.
  - intros Hses. by rewrite Hs, Hses.
  - rewrite Hs. apply with_position_score_desc.
  - intros i m. rewrite Hs. apply with_position_rank.
  - apply podium_positions.
  - intros i r m Hi. apply rankings_rows in Hi as [Hm ->]. split; [done|].
    rewrite Hs in Hm. by apply with_position_rank in Hm.
  - intros w2 c2 Hf2 Hses Ht. unfold state_after at 1.
    rewrite fetchLeaderboard_served by done. simpl. rewrite Hs.
    destruct (session w) as [u|] eqn:Hu.
    + assert (is_Some (session w2)) as Hs2 by (apply Hses; by eexists).
      rewrite !visible_members_signed_in by (done || by eexists).
      rewrite <- (with_position_apart_from_rank (order_by_score_desc _)).
      rewrite <- (with_position_apart_from_rank
                    (order_by_score_desc (leaderboard_members (db w)))).
      by rewrite !order_by_score_desc_apart_from_rank, Ht.
    + destruct (session w2) as [u2|] eqn:Hu2; [|done].
      assert (is_Some (@None uuid)) as [? ?] by (apply Hses; by eexists). done.
Qed.

Lemma fetchLeaderboard_ranks_by_position_witness :
  let w := sample_world [ann; bob; cy] calm in
  let s := state_after Leaderboard.fetchLeaderboard w Leaderboard.initial in
  sent (world_after Leaderboard.fetchLeaderboard w Leaderboard.initial)
  = sent w ++ [SelectMembers]
  ∧ (is_Some (session w) →
     apart_from_rank <$> Leaderboard.members s
     ≡ₚ apart_from_rank <$> leaderboard_members (db w))
  ∧ (session w = None → Leaderboard.members s = [])
  ∧ StronglySorted score_desc (Leaderboard.members s)
  ∧ (∀ i m, Leaderboard.members s !! i = Some m →
            Member.rank m = Some (Z.of_nat i + 1))
  ∧ (∀ position m, (position, m) ∈ Leaderboard.podium s →
                   1 ≤ position ≤ 3
                   ∧ Leaderboard.members s !! Z.to_nat (position - 1) = Some m)
  ∧ (∀ i r m, Leaderboard.rankings s !! i = Some (r, m) →
              Leaderboard.members s !! (3 + i)%nat = Some m
              ∧ r = Some (Z.of_nat (3 + i) + 1))
  ∧ (∀ w2 c2, ev_fault (env w2 (tick w2)) = NoFault →
              (is_Some (session w2) ↔ is_Some (session w)) →
              apart_from_rank <$> leaderboard_members (db w2)
              = apart_from_rank <$> leaderboard_members (db w) →
              Leaderboard.members (state_after Leaderboard.fetchLeaderboard w2 c2)
              = Leaderboard.members s).
Proof.
  apply (fetchLeaderboard_ranks_by_position (sample_world [ann; bob; cy] calm)
           Leaderboard.initial).
  reflexivity.
Defined.
(** ** The admin check *)

Lemma single_truthy rows : truthy (data (single rows)) = true ↔ ∃ r, rows = [r].
Proof.
  destruct rows as [|r [|r' rows]]; simpl; split; try done.
  - by intros [r ?].
  - by eexists.
  - by intros [r0 ?].
Qed.

(** A row for the admin check is a row [has_role] finds. *)
Lemma returns_admin_row_has_role d u :
  returns_admin_row d u → has_role d u admin = true.
Proof.
  intros [r Hr]. unfold has_role. apply bool_decide_eq_true, Exists_exists.
  exists r.
  assert (r ∈ filter (λ r, UserRole.user_id r = u ∧ UserRole.role r = admin)
                     (user_roles d)) as Hin by (rewrite Hr; left).
  apply list_elem_of_filter in Hin as [Hp Hin]. done.
Qed.

Lemma admin_checkAdminStatus_run u w c :
  (ev_fault (env w (tick w)) = NoFault ∧ returns_admin_row (db w) u
   ∧ state_after (Admin.checkAdminStatus (Some u)) w c
     = Admin.mkState (Admin.user c) true (Admin.loading c))
  ∨ (¬ (ev_fault (env w (tick w)) = NoFault ∧ returns_admin_row (db w) u)
     ∧ state_after (Admin.checkAdminStatus (Some u)) w c
       = Admin.mkState (Admin.user c) false (Admin.loading c)
     ∧ toasts (world_after (Admin.checkAdminStatus (Some u)) w c)
       = toasts w ++ [Admin.access_denied]
     ∧ db (world_after (Admin.checkAdminStatus (Some u)) w c) = db w).
Proof.
  unfold state_after, world_after.
  destruct (Admin.checkAdminStatus (Some u) w c) as [[o w'] c'] eqn:Hrun.
  unfold Admin.checkAdminStatus, try_catch, bind, call in Hrun. simpl.
  destruct (ev_fault (env w (tick w))) eqn:Hf.
  - unfold serve in Hrun.
    match type of Hrun with context [truthy ?x] =>
      destruct (truthy x) eqn:Ht
    end; cbn in Hrun; unfold toast in Hrun; simplify_eq.
    + left. apply single_truthy in Ht. done.
    + right. split.
      * intros [_ Hr]. apply single_truthy in Hr. congruence.
      * repeat split.
  - cbn in Hrun. unfold toast in Hrun. simplify_eq. right. split.
    + by intros [? _].
    + repeat split.
  - cbn in Hrun. unfold toast in Hrun. simplify_eq. right. split.
    + by intros [? _].
    + repeat split.
Qed.

Lemma leaderboard_checkAdminStatus_run w c :
  (ev_fault (env w (tick w)) = NoFault
   ∧ ev_fault (env w (S (tick w))) = NoFault
   ∧ (∃ u, session w = Some u ∧ returns_admin_row (db w) u)
   ∧ state_after Leaderboard.checkAdminStatus w c
     = Leaderboard.mkState (Leaderboard.members c) (Leaderboard.loading c) true)
  ∨ (¬ (ev_fault (env w (tick w)) = NoFault
        ∧ ev_fault (env w (S (tick w))) = NoFault
        ∧ ∃ u, session w = Some u ∧ returns_admin_row (db w) u)
     ∧ state_after Leaderboard.checkAdminStatus w c = c
     ∧ toasts (world_after Leaderboard.checkAdminStatus w c) = toasts w
     ∧ db (world_after Leaderboard.checkAdminStatus w c) = db w).
Proof.
  unfold state_after, world_after.
  destruct (Leaderboard.checkAdminStatus w c) as [[o w'] c'] eqn:Hrun.
  unfold Leaderboard.checkAdminStatus, try_catch in Hrun.
  unfold bind at 1 in Hrun. unfold call at 1 in Hrun. simpl.
  destruct (ev_fault (env w (tick w))) eqn:Hf.
  - unfold serve at 1 in Hrun. destruct (session w) as [u|] eqn:Hs; simpl in Hrun.
    + unfold bind, call in Hrun. simpl in Hrun.
      destruct (ev_fault (env w (S (tick w)))) eqn:Hf2.
      * unfold serve in Hrun.
        match type of Hrun with context [truthy ?x] =>
          destruct (truthy x) eqn:Ht
        end; cbn in Hrun; unfold ret in Hrun; simplify_eq.
        -- left. apply single_truthy in Ht. split; [done|]. split; [done|].
           split; [by exists u|done].
        -- right. split; [|repeat split].
           intros (_ & _ & u' & [= <-] & Hr).
           apply single_truthy in Hr. congruence.
      * cbn in Hrun. unfold ret in Hrun. simplify_eq. right. split; [|repeat split].
        by intros (_ & ? & _).
      * cbn in Hrun. unfold ret in Hrun. simplify_eq. right. split; [|repeat split].
        by intros (_ & ? & _).
    + cbn in Hrun. unfold ret in Hrun. simplify_eq. right. split; [|repeat split].
      by intros (_ & _ & u' & ? & _).
  - cbn in Hrun. unfold ret in Hrun. simplify_eq. right. split; [|repeat split]. by intros [? _].
  - cbn in Hrun. unfold ret in Hrun. simplify_eq. right. split; [|repeat split]. by intros [? _].
Qed.

(** C7. In both components the admin check sets the admin status to true
    only when the [user_roles] query has returned an admin row for the
    current user.  On the gate page every other course of the check (an error
    in the response, a rejected call, no row) ends in one and the same state:
    not admin, with the access-denied notification.  On the leaderboard view
    every other course, a failing session lookup included, leaves the state
    as it was, which on load is not admin. *)
Theorem admin_check_fails_closed w :
  (∀ u c,
     let c' := state_after (Admin.checkAdminStatus (Some u)) w c in
     let w' := world_after (Admin.checkAdminStatus (Some u)) w c in
     (Admin.isAdmin c' = true
      ↔ ev_fault (env w (tick w)) = NoFault ∧ returns_admin_row (db w) u)
     ∧ (Admin.isAdmin c' = false →
        c' = Admin.mkState (Admin.user c) false (Admin.loading c)
        ∧ toasts w' = toasts w ++ [Admin.access_denied]
        ∧ db w' = db w))
  ∧ (∀ c,
       let c' := state_after Leaderboard.checkAdminStatus w c in
       let w' := world_after Leaderboard.checkAdminStatus w c in
       Leaderboard.isAdmin c = false →
       (Leaderboard.isAdmin c' = true
        ↔ ev_fault (env w (tick w)) = NoFault
          ∧ ev_fault (env w (S (tick w))) = NoFault
          ∧ ∃ u, session w = Some u ∧ returns_admin_row (db w) u)
       ∧ (Leaderboard.isAdmin c' = false → c' = c ∧ db w' = db w)).
Proof.
  split.
  - intros u c c' w'. subst c' w'.
    destruct (admin_checkAdminStatus_run u w c)
      as [(Hf & Hr & ->)|(Hn & -> & Ht & Hd)]; simpl.
    + split; [done|]. done.
    + split; [|done]. split; [done|]. intros H. by destruct Hn.
  - intros c c' w' Hc. subst c' w'.
    destruct (leaderboard_checkAdminStatus_run w c)
      as [(Hf & Hf2 & Hr & ->)|(Hn & -> & Ht & Hd)]; simpl.
    + split; [done|]. done.
    + rewrite Hc. split; [|done]. split; [done|]. intros H. by destruct Hn.
Qed.

(** ** Signing up *)

Lemma filter_nil_not_elem_of {A} (P : A → Prop) `{∀ x, Decision (P x)} l :
  (∀ x, x ∈ l → ¬ P x) → filter P l = [].
Proof.
  induction l as [|x l IH]; intros Hl; [done|].
  rewrite filter_cons, decide_False by (apply Hl; left).
  apply IH. intros y Hy. apply Hl. by right.
Qed.

(** What a signup that commits has done to the three tables. *)
Lemma signup_Some now rid NEW d d' :
  signup now rid NEW d = Some d' →
  ∃ email,
    AuthUser.email NEW = Some email
    ∧ (AuthUser.id NEW ∉ AuthUser.id <$> auth_users d)
    ∧ (rid ∉ UserRole.id <$> user_roles d)
    ∧ d' = mkDatabase
             (auth_users d ++ [NEW])
             (profiles d ++ [Profile.mk (AuthUser.id NEW) email
                               (Some (default email (AuthUser.full_name_meta NEW)))
                               user now now])
             (user_roles d ++ [UserRole.mk rid (AuthUser.id NEW) user])
             (leaderboard_members d).
Proof.
  unfold signup, handle_new_user. case_decide as Hid; [done|].
  destruct (AuthUser.email NEW) as [email|]; [|done]. simpl.
  unfold insert_profile. simpl. case_decide; [done|]. case_decide; [|done].
  simpl. unfold insert_user_role. simpl.
  case_decide as Hrid; [done|]. case_decide; [done|]. case_decide; [|done].
  intros [= <-]. by exists email.
Qed.

(** C9. For every signup that commits, and a database that obeys the keys of
    its identity tables, the signup has added the identity together with
    exactly one [profiles] row for it and exactly one [user_roles] row for it,
    of role [user]: the three rows are there together, since a signup that
    does not commit leaves no database at all; the keys hold again. *)
Theorem signup_creates_one_profile_and_one_user_role now rid NEW d d' :
  identities_consistent d →
  signup now rid NEW d = Some d' →
  auth_users d' = auth_users d ++ [NEW]
  ∧ (∃ p, filter (λ p, Profile.id p = AuthUser.id NEW) (profiles d') = [p]
          ∧ Profile.role p = user
          ∧ AuthUser.email NEW = Some (Profile.email p))
  ∧ filter (λ r, UserRole.user_id r = AuthUser.id NEW) (user_roles d')
    = [UserRole.mk rid (AuthUser.id NEW) user]
  ∧ identities_consistent d'.
Proof.
  intros (Hnd & Hp & Hr) Hs.
  apply signup_Some in Hs as (email & He & Hid & Hrid & ->). simpl.
  split; [done|]. split; [|split].
  - eexists. rewrite filter_app, filter_nil_not_elem_of.
    + rewrite filter_cons, decide_True by done. simpl. by rewrite He.
    + intros p Hin Heq. apply Hid. rewrite <- Heq. by apply Hp.
  - rewrite filter_app, filter_nil_not_elem_of.
    + by rewrite filter_cons, decide_True.
    + intros r Hin Heq. apply Hid. rewrite <- Heq. by apply Hr.
  - unfold identities_consistent. simpl. rewrite fmap_app. simpl. repeat split.
    + apply NoDup_app. split; [done|]. split; [|apply NoDup_singleton].
      intros x Hx Hx'. apply list_elem_of_singleton in Hx'. by subst.
    + intros p Hin. apply elem_of_app in Hin as [Hin|Hin].
      * apply elem_of_app. left. by apply Hp.
      * apply list_elem_of_singleton in Hin as ->. apply elem_of_app. right. left.
    + intros r Hin. apply elem_of_app in Hin as [Hin|Hin].
      * apply elem_of_app. left. by apply Hr.
      * apply list_elem_of_singleton in Hin as ->. apply elem_of_app. right. left.
Qed.

(** A signup commits when the identity is new and has an e-mail address, and
    the id drawn for its role row is not taken. *)
Lemma signup_commits now rid NEW d email :
  identities_consistent d →
  AuthUser.id NEW ∉ AuthUser.id <$> auth_users d →
  AuthUser.email NEW = Some email →
  rid ∉ UserRole.id <$> user_roles d →
  is_Some (signup now rid NEW d).
Proof.
  intros (Hnd & Hp & Hr) Hid He Hrid.
  unfold signup, handle_new_user. rewrite decide_False by done.
  rewrite He. simpl. unfold insert_profile. simpl.
  rewrite decide_False.
  2:{ intros Hin. apply list_elem_of_fmap in Hin as (p & Heq & Hin).
      apply Hid. rewrite Heq. by apply Hp. }
  rewrite decide_True by (rewrite fmap_app; apply elem_of_app; right; left).
  simpl. unfold insert_user_role. simpl.
  rewrite decide_False by done.
  rewrite decide_False.
  2:{ intros Hin. apply list_elem_of_fmap in Hin as (r & Heq & Hin).
      apply Hid. injection Heq as Heq _. rewrite Heq. by apply Hr. }
  rewrite decide_True by (rewrite fmap_app; apply elem_of_app; right; left).
  by eexists.
Qed.

Lemma signup_creates_one_profile_and_one_user_role_witness :
  let NEW := AuthUser.mk "v" (Some "v@example.org") None in
  let d := sample_database [] in
  let d' := mkDatabase
              (auth_users d ++ [NEW])
              (profiles d ++ [Profile.mk "v" "v@example.org" (Some "v@example.org")
                                         user 5 5])
              (user_roles d ++ [UserRole.mk "r9" "v" user])
              [] in
  auth_users d' = auth_users d ++ [NEW]
  ∧ (∃ p, filter (λ p, Profile.id p = AuthUser.id NEW) (profiles d') = [p]
          ∧ Profile.role p = user
          ∧ AuthUser.email NEW = Some (Profile.email p))
  ∧ filter (λ r, UserRole.user_id r = AuthUser.id NEW) (user_roles d')
    = [UserRole.mk "r9" (AuthUser.id NEW) user]
  ∧ identities_consistent d'.
Proof.
  apply (signup_creates_one_profile_and_one_user_role 5 "r9"
           (AuthUser.mk "v" (Some "v@example.org") None) (sample_database [])).
  - unfold identities_consistent. split; [compute_done|]. split.
    + intros p Hp. apply list_elem_of_singleton in Hp as ->. compute_done.
    + intros r Hr. repeat (apply elem_of_cons in Hr as [->|Hr]; [compute_done|]).
      by apply elem_of_nil in Hr.
  - reflexivity.
Defined.

(** * Further properties *)

(** ** The rank trigger function, continued *)

(** X2. The rank trigger function keeps the rows: up to the order in which
    they are listed, the ids, names, scores, avatars and creation times
    after a run are those from before it.  It gives every row a rank (none
    is left null) and stamps every row with [now()]. *)
Theorem update_leaderboard_ranks_writes_rank_and_stamp now t :
  content <$> update_leaderboard_ranks now t ≡ₚ content <$> t
  ∧ Forall (λ m', is_Some (Member.rank m') ∧ Member.updated_at m' = now)
           (update_leaderboard_ranks now t).
Proof.
  split; [by rewrite content_update_leaderboard_ranks|].
  unfold update_leaderboard_ranks. apply Forall_fmap, Forall_forall.
  intros m Hm. simpl. unfold set_new_rank.
  destruct (lookup_rank_row_number_is_Some 1 (stable_sort rank_order t) m) as [k Hk].
  { by rewrite stable_sort_Permutation. }
  unfold ranked. by rewrite Hk.
Qed.

(** ** The rank loop, continued *)

(** X3. On a table that carries the ranks the trigger function gives it,
    [updateRanks] changes no rank and no content, whichever members it is
    run on and whichever of its calls go wrong. *)
Theorem updateRanks_changes_stamps_only members w c :
  as_trigger_left (leaderboard_members (db w)) →
  let w' := world_after (AdminPanel.updateRanks members) w c in
  content <$> leaderboard_members (db w') = content <$> leaderboard_members (db w)
  ∧ ranks_of (leaderboard_members (db w')) = ranks_of (leaderboard_members (db w))
  ∧ as_trigger_left (leaderboard_members (db w')).
Proof. intros Ha. cbv zeta. by rewrite updateRanks_db. Qed.

Lemma updateRanks_changes_stamps_only_witness :
  let w := sample_world [ann; bob] (failing_at 1) in
  let w' := world_after (AdminPanel.updateRanks [bob; ann]) w AdminPanel.initial in
  content <$> leaderboard_members (db w') = content <$> leaderboard_members (db w)
  ∧ ranks_of (leaderboard_members (db w')) = ranks_of (leaderboard_members (db w))
  ∧ as_trigger_left (leaderboard_members (db w')).
Proof.
  apply (updateRanks_changes_stamps_only [bob; ann]
           (sample_world [ann; bob] (failing_at 1)) AdminPanel.initial).
  reflexivity.
Defined.

(** ** The handlers of the admin panel *)

Lemma handleAddMember_db this w c :
  db (world_after (AdminPanel.handleAddMember this) w c) = db w.
Proof.
  unfold world_after.
  destruct (isNaN (parseInt (AdminPanel.nm_score (AdminPanel.newMember this))))
    eqn:Hs.
  - by rewrite handleAddMember_rejects.
  - by rewrite handleAddMember_refused.
Qed.

Lemma handleSaveEdit_db this w c :
  db (world_after (AdminPanel.handleSaveEdit this) w c) = db w.
Proof.
  unfold world_after. destruct (AdminPanel.editingMember this) as [e|] eqn:He.
  - by rewrite (handleSaveEdit_refused this w c e).
  - unfold AdminPanel.handleSaveEdit. by rewrite He.
Qed.

(** X4. Whatever the session, the state of the panel and the fate of the
    calls, no handler of the admin panel changes the database: not the add,
    the save or the delete, nor the rank loop or the reload.  And none of
    the three handlers that are to change it ever reports success. *)
Theorem admin_panel_never_changes_the_database this w c :
  let unsuccessful w' :=
    ∀ t, t ∈ toasts w' → t ∈ toasts w ∨ title t ≠ "Success" in
  (db (world_after (AdminPanel.handleAddMember this) w c) = db w
   ∧ unsuccessful (world_after (AdminPanel.handleAddMember this) w c))
  ∧ (db (world_after (AdminPanel.handleSaveEdit this) w c) = db w
     ∧ unsuccessful (world_after (AdminPanel.handleSaveEdit this) w c))
  ∧ (∀ i, db (world_after (AdminPanel.handleDeleteMember this i) w c) = db w
          ∧ unsuccessful (world_after (AdminPanel.handleDeleteMember this i) w c))
  ∧ (∀ members, db (world_after (AdminPanel.updateRanks members) w c) = db w)
  ∧ db (world_after AdminPanel.fetchMembers w c) = db w.
Proof.
  cbv zeta. split; [|split; [|split; [|split]]].
  - split; [apply handleAddMember_db|]. unfold world_after.
    destruct (isNaN (parseInt (AdminPanel.nm_score (AdminPanel.newMember this))))
      eqn:Hs.
    + rewrite handleAddMember_rejects by done. simpl. intros t Ht.
      apply elem_of_app in Ht as [Ht|Ht]; [by left|].
      apply list_elem_of_singleton in Ht as ->. by right.
    + rewrite handleAddMember_refused by done. simpl. intros t Ht.
      apply elem_of_app in Ht as [Ht|Ht]; [by left|].
      apply list_elem_of_singleton in Ht as ->. by right.
  - split; [apply handleSaveEdit_db|]. unfold world_after.
    destruct (AdminPanel.editingMember this) as [e|] eqn:He.
    + rewrite (handleSaveEdit_refused this w c e) by done. simpl. intros t Ht.
      apply elem_of_app in Ht as [Ht|Ht]; [by left|].
      apply list_elem_of_singleton in Ht as ->. by right.
    + unfold AdminPanel.handleSaveEdit. rewrite He. simpl. intros t Ht. by left.
  - intros i. unfold world_after. rewrite handleDeleteMember_refused. simpl.
    split; [done|]. intros t Ht.
    apply elem_of_app in Ht as [Ht|Ht]; [by left|].
    apply list_elem_of_singleton in Ht as ->. by right.
  - intros members. apply updateRanks_db.
  - apply fetchMembers_db.
Qed.

(** ** Deleting a member *)

(** X5. A delete issues its one call and is refused, whether on the way or
    by the database: the row stays in the table, the error is logged and
    "Failed to delete member" is shown; no rank update and no reload
    follow, and the component state, the list shown included, is as
    before. *)
Theorem handleDeleteMember_is_refused this w c i :
  AdminPanel.handleDeleteMember this i w c
  = (Done tt,
     mkWorld (db w) (session w) (env w) (S (tick w)) (sent w ++ [DeleteMember i])
             (toasts w ++ [mkToast "Error" "Failed to delete member" "destructive"])
             (console w ++ ["Error deleting member:"]),
     c).
Proof. apply handleDeleteMember_refused. Qed.

(** ** When the first call of a handler goes wrong *)

(** X6. When the call that carries the mutation itself (the insert, the
    update of the edited row, the delete) goes wrong, the handler stops there:
    that call is the only one issued, the database is untouched, the error is
    logged and the "Failed to ..." notification is shown, and the component
    state is left as it was, so the add form stays filled and open and the
    draft stays in the row. *)
Theorem mutation_failure_is_contained this w c :
  ev_fault (env w (tick w)) ≠ NoFault →
  let failed q line t :=
    (Done tt,
     mkWorld (db w) (session w) (env w) (S (tick w)) (sent w ++ [q])
             (toasts w ++ [t]) (console w ++ [line]),
     c) in
  (∀ x, parseInt (AdminPanel.nm_score (AdminPanel.newMember this)) = x →
        isNaN x = false →
        AdminPanel.handleAddMember this w c
        = failed (InsertMember (AdminPanel.nm_name (AdminPanel.newMember this)) x
                    (or_null (AdminPanel.nm_avatar_url (AdminPanel.newMember this)))
                    (Z.of_nat (length (AdminPanel.members this)) + 1))
                 "Error adding member:"
                 (mkToast "Error" "Failed to add member" "destructive"))
  ∧ (∀ e, AdminPanel.editingMember this = Some e →
          AdminPanel.handleSaveEdit this w c
          = failed (UpdateMember (AdminPanel.em_id e) (AdminPanel.em_name e)
                      (AdminPanel.em_score e) (or_null (AdminPanel.em_avatar_url e)))
                   "Error updating member:"
                   (mkToast "Error" "Failed to update member" "destructive"))
  ∧ (∀ i, AdminPanel.handleDeleteMember this i w c
          = failed (DeleteMember i) "Error deleting member:"
                   (mkToast "Error" "Failed to delete member" "destructive")).
Proof.
  intros Hf. cbv zeta. split; [|split].
  - intros x <- Hx. by apply handleAddMember_refused.
  - intros e He. by apply handleSaveEdit_refused.
  - intros i. apply handleDeleteMember_refused.
Qed.

Lemma mutation_failure_is_contained_witness :
  let this := adding [cy] "Dee" "50" in
  let w := sample_world [cy] (failing_at 0) in
  let failed q line t :=
    (Done tt,
     mkWorld (db w) (session w) (env w) (S (tick w)) (sent w ++ [q])
             (toasts w ++ [t]) (console w ++ [line]),
     this) in
  (∀ x, parseInt (AdminPanel.nm_score (AdminPanel.newMember this)) = x →
        isNaN x = false →
        AdminPanel.handleAddMember this w this
        = failed (InsertMember (AdminPanel.nm_name (AdminPanel.newMember this)) x
                    (or_null (AdminPanel.nm_avatar_url (AdminPanel.newMember this)))
                    (Z.of_nat (length (AdminPanel.members this)) + 1))
                 "Error adding member:"
                 (mkToast "Error" "Failed to add member" "destructive"))
  ∧ (∀ e, AdminPanel.editingMember this = Some e →
          AdminPanel.handleSaveEdit this w this
          = failed (UpdateMember (AdminPanel.em_id e) (AdminPanel.em_name e)
                      (AdminPanel.em_score e) (or_null (AdminPanel.em_avatar_url e)))
                   "Error updating member:"
                   (mkToast "Error" "Failed to update member" "destructive"))
  ∧ (∀ i, AdminPanel.handleDeleteMember this i w this
          = failed (DeleteMember i) "Error deleting member:"
                   (mkToast "Error" "Failed to delete member" "destructive")).
Proof.
  apply (mutation_failure_is_contained (adding [cy] "Dee" "50")
           (sample_world [cy] (failing_at 0)) (adding [cy] "Dee" "50")).
  discriminate.
Defined.

(** ** Editing a member, continued *)

(** [(avatar_url || "") || null]: what the draft and the save make of an
    avatar. *)
Lemma or_null_default a :
  or_null (default EmptyString a)
  = if decide (a = Some EmptyString) then None else a.
Proof.
  destruct a as [s|]; simpl; [|done]. unfold or_null.
  destruct (decide (s = EmptyString)) as [->|Hs]; [done|].
  rewrite decide_False; [done|]. by intros [= ->].
Qed.

(** X7. Opening a row for editing and saving it unchanged sends the row back
    as it is: the one call issued is the update of the row's id with the
    row's own name and score and its avatar, except that an avatar that is
    the empty string is sent as null.  The update is refused like every
    write, so the failure is notified and the draft stays open, holding the
    values of the row. *)
Theorem edit_then_save_sends_the_row_back m w c :
  let this := state_after (AdminPanel.handleEditMember m) w c in
  AdminPanel.editingMember this
  = Some (AdminPanel.mkEditing (Member.id m) (Member.name m) (Num (Member.score m))
                               (default EmptyString (Member.avatar_url m)))
  ∧ AdminPanel.handleSaveEdit this w this
    = (Done tt,
       mkWorld (db w) (session w) (env w) (S (tick w))
               (sent w ++ [UpdateMember (Member.id m) (Member.name m)
                             (Num (Member.score m))
                             (if decide (Member.avatar_url m = Some EmptyString)
                              then None else Member.avatar_url m)])
               (toasts w ++ [mkToast "Error" "Failed to update member" "destructive"])
               (console w ++ ["Error updating member:"]),
       this).
Proof.
  intros this. split; [reflexivity|].
  rewrite (handleSaveEdit_refused this w this
             (AdminPanel.mkEditing (Member.id m) (Member.name m)
                (Num (Member.score m)) (default EmptyString (Member.avatar_url m))))
    by reflexivity.
  simpl. by rewrite or_null_default.
Qed.

(** ** Saving an edit *)

(** X19. A save issues the update of the draft's row, with the draft's name,
    score and avatar (null for an empty one), and is refused, whether on the
    way or by the database: no row is changed, the error is logged,
    "Failed to update member" is shown, no rank update and no reload
    follow, and the draft stays open.  Without a draft a save does
    nothing. *)
Theorem handleSaveEdit_is_refused this w c :
  (∀ e, AdminPanel.editingMember this = Some e →
        AdminPanel.handleSaveEdit this w c
        = (Done tt,
           mkWorld (db w) (session w) (env w) (S (tick w))
                   (sent w ++ [UpdateMember (AdminPanel.em_id e) (AdminPanel.em_name e)
                                 (AdminPanel.em_score e)
                                 (or_null (AdminPanel.em_avatar_url e))])
                   (toasts w ++ [mkToast "Error" "Failed to update member"
                                         "destructive"])
                   (console w ++ ["Error updating member:"]),
           c))
  ∧ (AdminPanel.editingMember this = None →
     AdminPanel.handleSaveEdit this w c = (Done tt, w, c)).
Proof.
  split.
  - intros e He. by apply handleSaveEdit_refused.
  - intros He. unfold AdminPanel.handleSaveEdit. by rewrite He.
Qed.

(** The handlers on the sample table, with every call reaching the server:
    a delete of [bob], a save of the draft of [bob], and a save without a
    draft. *)
Example handlers_on_sample_table :
  let w := sample_world [ann; bob; cy] calm in
  let w1 := world_after (AdminPanel.handleDeleteMember (adding [cy; ann; bob] "" "") "b")
                        w (adding [cy; ann; bob] "" "") in
  let w2 := world_after (AdminPanel.handleSaveEdit (editing [cy; ann; bob] bob))
                        w (editing [cy; ann; bob] bob) in
  (sent w1 = [DeleteMember "b"] ∧ leaderboard_members (db w1) = [ann; bob; cy])
  ∧ (sent w2 = [UpdateMember "b" "Bob" (Num 10) None]
     ∧ leaderboard_members (db w2) = [ann; bob; cy])
  ∧ AdminPanel.handleSaveEdit (adding [cy] "" "") w (adding [cy] "" "")
    = (Done tt, w, adding [cy] "" "").
Proof. repeat split; reflexivity. Qed.

(** ** Loading the member list *)

(** X8. When the fetch goes wrong, both components keep the list they had
    (they do not empty it) and stop showing the loading screen; the admin
    panel logs the error and shows the "Failed to fetch" notification, the
    leaderboard view only logs it and shows no notification at all. *)
Theorem failed_fetch_keeps_the_list w :
  ev_fault (env w (tick w)) ≠ NoFault →
  (∀ c, AdminPanel.fetchMembers w c
        = (Done tt,
           mkWorld (db w) (session w) (env w) (S (tick w)) (sent w ++ [SelectMembers])
                   (toasts w ++ [mkToast "Error" "Failed to fetch leaderboard members"
                                         "destructive"])
                   (console w ++ ["Error fetching members:"]),
           AdminPanel.mkState (AdminPanel.members c) false (AdminPanel.editingMember c)
                              (AdminPanel.newMember c) (AdminPanel.isAddDialogOpen c)))
  ∧ (∀ c, Leaderboard.fetchLeaderboard w c
          = (Done tt,
             mkWorld (db w) (session w) (env w) (S (tick w)) (sent w ++ [SelectMembers])
                     (toasts w) (console w ++ ["Error fetching leaderboard:"]),
             Leaderboard.mkState (Leaderboard.members c) false (Leaderboard.isAdmin c))).
Proof.
  intros Hf. split; intros c.
  - unfold AdminPanel.fetchMembers, finally, try_catch, bind, call.
    by destruct (ev_fault (env w (tick w))).
  - unfold Leaderboard.fetchLeaderboard, finally, try_catch, bind, call.
    by destruct (ev_fault (env w (tick w))).
Qed.

Lemma failed_fetch_keeps_the_list_witness :
  let w := sample_world [ann; bob] (failing_at 0) in
  (∀ c, AdminPanel.fetchMembers w c
        = (Done tt,
           mkWorld (db w) (session w) (env w) (S (tick w)) (sent w ++ [SelectMembers])
                   (toasts w ++ [mkToast "Error" "Failed to fetch leaderboard members"
                                         "destructive"])
                   (console w ++ ["Error fetching members:"]),
           AdminPanel.mkState (AdminPanel.members c) false (AdminPanel.editingMember c)
                              (AdminPanel.newMember c) (AdminPanel.isAddDialogOpen c)))
  ∧ (∀ c, Leaderboard.fetchLeaderboard w c
          = (Done tt,
             mkWorld (db w) (session w) (env w) (S (tick w)) (sent w ++ [SelectMembers])
                     (toasts w) (console w ++ ["Error fetching leaderboard:"]),
             Leaderboard.mkState (Leaderboard.members c) false (Leaderboard.isAdmin c))).
Proof.
  apply (failed_fetch_keeps_the_list (sample_world [ann; bob] (failing_at 0))).
  discriminate.
Defined.

Lemma length_order_by_score_desc t : length (order_by_score_desc t) = length t.
Proof. unfold order_by_score_desc. apply length_stable_sort. Qed.

Lemma visible_members_nil d ses :
  visible_members d ses = [] ↔ leaderboard_members d = [] ∨ ses = None.
Proof.
  destruct ses as [u|].
  - rewrite visible_members_signed_in by (by eexists).
    split; [by left|]. by intros [?|?].
  - rewrite visible_members_anonymous. split; [by right|done].
Qed.

(** X9. After a served fetch each component shows its empty-state block
    exactly when the table has no row or the visitor is not signed in, the
    policies letting only signed-in sessions read.  The leaderboard view
    then shows no podium card and no ranking row, and shows a podium card
    otherwise; the stats cards of the admin panel then show 0 members,
    highest score 0 and leader "None", and the number of rows of the table
    for a signed-in session. *)
Theorem empty_state_iff_empty_table w :
  ev_fault (env w (tick w)) = NoFault →
  (∀ c, let c' := state_after AdminPanel.fetchMembers w c in
        (AdminPanel.emptyState c' = true
         ↔ leaderboard_members (db w) = [] ∨ session w = None)
        ∧ (is_Some (session w) →
           AdminPanel.totalMembers c' = length (leaderboard_members (db w)))
        ∧ (AdminPanel.emptyState c' = true →
           AdminPanel.totalMembers c' = 0%nat
           ∧ AdminPanel.highestScore c' = 0 ∧ AdminPanel.currentLeader c' = "None"
           ∧ AdminPanel.table_rows c' = []))
  ∧ (∀ c, let c' := state_after Leaderboard.fetchLeaderboard w c in
          (Leaderboard.emptyState c' = true
           ↔ leaderboard_members (db w) = [] ∨ session w = None)
          ∧ (Leaderboard.emptyState c' = true →
             Leaderboard.podium_cards c' = [] ∧ Leaderboard.ranking_rows c' = [])
          ∧ (Leaderboard.emptyState c' = false → Leaderboard.podium_cards c' ≠ [])).
Proof.
  intros Hf. split; intros c; cbv zeta; unfold state_after.
  - rewrite fetchMembers_served by done. simpl.
    unfold AdminPanel.emptyState, AdminPanel.totalMembers. simpl.
    rewrite length_order_by_score_desc. split; [|split].
    + rewrite bool_decide_eq_true, <- visible_members_nil.
      by destruct (visible_members (db w) (session w)).
    + intros Hs. by rewrite visible_members_signed_in.
    + rewrite bool_decide_eq_true. intros Hl.
      unfold AdminPanel.highestScore, AdminPanel.currentLeader,
        AdminPanel.table_rows. simpl.
      destruct (visible_members (db w) (session w)); [done|done].
  - rewrite fetchLeaderboard_served by done. simpl.
    unfold Leaderboard.emptyState. simpl.
    rewrite length_imap, length_order_by_score_desc. split; [|split].
    + rewrite bool_decide_eq_true, <- visible_members_nil.
      by destruct (visible_members (db w) (session w)).
    + rewrite bool_decide_eq_true. intros Hl.
      unfold Leaderboard.podium_cards, Leaderboard.ranking_rows,
        Leaderboard.podium, Leaderboard.podium_card, Leaderboard.topThree,
        Leaderboard.remaining. simpl.
      destruct (visible_members (db w) (session w)); [done|done].
    + rewrite bool_decide_eq_false. intros Ht.
      assert (Hlen : length (imap Leaderboard.with_position
                       (order_by_score_desc (visible_members (db w) (session w))))
                     ≠ 0%nat).
      { by rewrite length_imap, length_order_by_score_desc. }
      destruct (imap _ _) as [|m0 l0] eqn:Hl; [done|].
      unfold Leaderboard.podium_cards, Leaderboard.podium, Leaderboard.podium_card,
        Leaderboard.topThree. simpl. rewrite fmap_app.
      by destruct l0.
Qed.

Lemma empty_state_iff_empty_table_witness :
  let w := anonymous_world [ann; bob] in
  (∀ c, let c' := state_after AdminPanel.fetchMembers w c in
        (AdminPanel.emptyState c' = true
         ↔ leaderboard_members (db w) = [] ∨ session w = None)
        ∧ (is_Some (session w) →
           AdminPanel.totalMembers c' = length (leaderboard_members (db w)))
        ∧ (AdminPanel.emptyState c' = true →
           AdminPanel.totalMembers c' = 0%nat
           ∧ AdminPanel.highestScore c' = 0 ∧ AdminPanel.currentLeader c' = "None"
           ∧ AdminPanel.table_rows c' = []))
  ∧ (∀ c, let c' := state_after Leaderboard.fetchLeaderboard w c in
          (Leaderboard.emptyState c' = true
           ↔ leaderboard_members (db w) = [] ∨ session w = None)
          ∧ (Leaderboard.emptyState c' = true →
             Leaderboard.podium_cards c' = [] ∧ Leaderboard.ranking_rows c' = [])
          ∧ (Leaderboard.emptyState c' = false → Leaderboard.podium_cards c' ≠ [])).
Proof.
  apply (empty_state_iff_empty_table (anonymous_world [ann; bob])). reflexivity.
Defined.

(** ** The stats cards and the badges of the admin panel *)

(** X10. After a served fetch in a signed-in session (the panel is mounted
    for such sessions only) the "Highest Score" card shows a score that no
    row of the table exceeds, and the "Current Leader" card names a member
    who has that score. *)
Theorem highest_score_card_is_the_maximum w c :
  ev_fault (env w (tick w)) = NoFault →
  is_Some (session w) →
  let c' := state_after AdminPanel.fetchMembers w c in
  (∀ m, m ∈ leaderboard_members (db w) → Member.score m ≤ AdminPanel.highestScore c')
  ∧ (leaderboard_members (db w) ≠ [] →
     ∃ m, m ∈ leaderboard_members (db w)
          ∧ Member.name m = AdminPanel.currentLeader c'
          ∧ Member.score m = AdminPanel.highestScore c').
Proof.
  intros Hf Hses. cbv zeta. unfold state_after. rewrite fetchMembers_served by done.
  rewrite visible_members_signed_in by done.
  simpl. unfold AdminPanel.highestScore, AdminPanel.currentLeader. simpl.
  pose proof (order_by_score_desc_sorted (leaderboard_members (db w))) as Hs.
  assert (Hp : order_by_score_desc (leaderboard_members (db w))
               ≡ₚ leaderboard_members (db w)) by apply stable_sort_Permutation.
  destruct (order_by_score_desc (leaderboard_members (db w))) as [|m0 l0] eqn:Hl.
  - apply Permutation_nil_l in Hp. rewrite <- Hp. split; [|done].
    intros m Hm. by apply elem_of_nil in Hm.
  - split.
    + intros m Hm. rewrite <- Hp in Hm. apply StronglySorted_cons in Hs as [Hall _].
      apply elem_of_cons in Hm as [->|Hm]; [done|].
      rewrite Forall_forall in Hall. by apply Hall.
    + intros _. exists m0. split; [|done]. rewrite <- Hp. left.
Qed.

Lemma highest_score_card_is_the_maximum_witness :
  let w := sample_world [ann; bob; cy] calm in
  let c' := state_after AdminPanel.fetchMembers w AdminPanel.initial in
  (∀ m, m ∈ leaderboard_members (db w) → Member.score m ≤ AdminPanel.highestScore c')
  ∧ (leaderboard_members (db w) ≠ [] →
     ∃ m, m ∈ leaderboard_members (db w)
          ∧ Member.name m = AdminPanel.currentLeader c'
          ∧ Member.score m = AdminPanel.highestScore c').
Proof.
  apply (highest_score_card_is_the_maximum (sample_world [ann; bob; cy] calm)
           AdminPanel.initial).
  - reflexivity.
  - by eexists.
Defined.

Lemma getRankBadge_Champion r : AdminPanel.getRankBadge r = AdminPanel.Champion ↔ r = Some 1.
Proof.
  split; [|by intros ->].
  destruct r as [[|[p|p|]|p]|]; simpl; try done; by destruct p.
Qed.

Lemma seqZ_from_2_not_1 n : Some 1 ∉ (Some <$> seqZ 2 n : list (option Z)).
Proof.
  intros Hin. apply list_elem_of_fmap in Hin as (k & [= <-] & Hk).
  apply list_elem_of_lookup in Hk as [i Hi].
  apply lookup_seqZ in Hi. lia.
Qed.

(** In a ranked table exactly one row carries rank 1, and no row has a
    higher score. *)
Lemma ranked_1_to_N_first t :
  ranked_1_to_N t → t ≠ [] →
  ∃ m, filter (λ x, Member.rank x = Some 1) t = [m]
       ∧ ∀ x, x ∈ t → Member.score x ≤ Member.score m.
Proof.
  intros (l & Hp & Hr & Hs) Ht.
  destruct l as [|m l].
  { apply Permutation_nil_l in Hp. by subst. }
  exists m.
  assert (Hlen : 0 < Z.of_nat (length t)) by (destruct t; [done|simpl; lia]).
  rewrite seqZ_cons, !fmap_cons in Hr by done. injection Hr as Hm Hl.
  assert (Hfl : filter (λ x, Member.rank x = Some 1) (m :: l) = [m]).
  { rewrite filter_cons, decide_True by done. f_equal.
    apply filter_nil_not_elem_of. intros x Hx Hx1.
    apply (seqZ_from_2_not_1 (Z.pred (Z.of_nat (length t)))).
    change (Z.succ 1) with 2 in Hl. rewrite <- Hl, <- Hx1.
    by apply list_elem_of_fmap_2. }
  split.
  - assert (Hpf : filter (λ x, Member.rank x = Some 1) t
                  ≡ₚ filter (λ x, Member.rank x = Some 1) (m :: l))
      by (by rewrite Hp).
    rewrite Hfl in Hpf. by apply Permutation_singleton_r in Hpf.
  - intros x Hx. rewrite <- Hp in Hx.
    apply elem_of_cons in Hx as [->|Hx]; [done|].
    apply StronglySorted_cons in Hs as [Hall _].
    rewrite Forall_forall in Hall. apply precedes_score_desc. by apply Hall.
Qed.

(** X11. When the table is ranked 1..N and not empty, the members table of
    the admin panel, after a served fetch in a signed-in session, shows the
    Champion badge on exactly one row, and no member has a higher score than
    that one. *)
Theorem champion_badge_is_unique_and_top w c :
  ev_fault (env w (tick w)) = NoFault →
  is_Some (session w) →
  ranked_1_to_N (leaderboard_members (db w)) →
  leaderboard_members (db w) ≠ [] →
  let c' := state_after AdminPanel.fetchMembers w c in
  ∃ m, m ∈ leaderboard_members (db w)
       ∧ filter (λ row, row.1.1 = AdminPanel.Champion) (AdminPanel.table_rows c')
         = [(AdminPanel.Champion, initials (Member.name m), m)]
       ∧ ∀ x, x ∈ leaderboard_members (db w) → Member.score x ≤ Member.score m.
Proof.
  intros Hf Hses Hr Ht. cbv zeta. unfold state_after.
  rewrite fetchMembers_served by done.
  rewrite visible_members_signed_in by done.
  simpl. unfold AdminPanel.table_rows. simpl.
  destruct (ranked_1_to_N_first _ Hr Ht) as (m & Hm & Hmax).
  exists m.
  assert (Hin : m ∈ leaderboard_members (db w)).
  { assert (m ∈ filter (λ x, Member.rank x = Some 1) (leaderboard_members (db w))) as H
      by (rewrite Hm; left).
    by apply list_elem_of_filter in H as [_ H]. }
  split; [done|]. split; [|done].
  assert (Hp : order_by_score_desc (leaderboard_members (db w))
               ≡ₚ leaderboard_members (db w)) by apply stable_sort_Permutation.
  assert (Hfs : filter (λ x, Member.rank x = Some 1)
                       (order_by_score_desc (leaderboard_members (db w))) = [m]).
  { apply Permutation_singleton_r. by rewrite Hp, Hm. }
  revert Hfs. generalize (order_by_score_desc (leaderboard_members (db w))).
  intros l. induction l as [|x l IH]; [done|].
  rewrite fmap_cons, !filter_cons. simpl.
  destruct (decide (Member.rank x = Some 1)) as [Hx|Hx].
  - rewrite decide_True by (by apply getRankBadge_Champion).
    intros [= -> Hl]. rewrite Hx. simpl. f_equal.
    clear IH. induction l as [|y l IH]; [done|].
    rewrite filter_cons in Hl. case_decide as Hy; [done|].
    rewrite fmap_cons, filter_cons, decide_False.
    + by apply IH.
    + simpl. by rewrite getRankBadge_Champion.
  - rewrite decide_False by (by rewrite getRankBadge_Champion).
    apply IH.
Qed.

Lemma champion_badge_is_unique_and_top_witness :
  let w := sample_world (update_leaderboard_ranks 9 [ann; bob]) calm in
  let c' := state_after AdminPanel.fetchMembers w AdminPanel.initial in
  ∃ m, m ∈ leaderboard_members (db w)
       ∧ filter (λ row, row.1.1 = AdminPanel.Champion) (AdminPanel.table_rows c')
         = [(AdminPanel.Champion, initials (Member.name m), m)]
       ∧ ∀ x, x ∈ leaderboard_members (db w) → Member.score x ≤ Member.score m.
Proof.
  apply (champion_badge_is_unique_and_top
           (sample_world (update_leaderboard_ranks 9 [ann; bob]) calm)
           AdminPanel.initial).
  - reflexivity.
  - by eexists.
  - apply update_leaderboard_ranks_ranked. unfold primary_key. compute_done.
  - discriminate.
Defined.

(** ** Icons and styles of the leaderboard view *)

Lemma getRankIcon_Award r :
  r = Some 1 ∨ r = Some 2 ∨ r = Some 3 ∨ Leaderboard.getRankIcon r = Leaderboard.Award.
Proof.
  destruct r as [[|[p|p|]|p]|]; simpl; auto;
    destruct p; simpl; auto.
Qed.

Lemma rank_above_3_default k :
  3 < k →
  Leaderboard.getRankIcon (Some k) = Leaderboard.Award
  ∧ Leaderboard.getRankStyle (Some k)
    = "bg-gradient-card border border-border shadow-card hover:bg-accent/20".
Proof.
  intros Hk. destruct k as [|[p|p|]|p]; try lia; simpl;
    destruct p; simpl; try done; lia.
Qed.

(** X12. After a served fetch every podium card carries the style and the
    icon of the rank its member carries, which is a crown, a trophy or a
    medal, never the plain award; every row below the podium carries the
    plain award icon and the default style.  So the position a card is given
    and the rank written into the member agree. *)
Theorem medals_go_to_the_podium_only w c :
  ev_fault (env w (tick w)) = NoFault →
  let c' := state_after Leaderboard.fetchLeaderboard w c in
  (∀ style icon m, (style, icon, m) ∈ Leaderboard.podium_cards c' →
     style = Leaderboard.getRankStyle (Member.rank m)
     ∧ icon = Leaderboard.getRankIcon (Member.rank m)
     ∧ icon ≠ Leaderboard.Award)
  ∧ (∀ style icon m, (style, icon, m) ∈ Leaderboard.ranking_rows c' →
       icon = Leaderboard.Award
       ∧ style = "bg-gradient-card border border-border shadow-card hover:bg-accent/20").
Proof.
  intros Hf c'.
  assert (Hs : Leaderboard.members c'
               = imap Leaderboard.with_position
                      (order_by_score_desc (visible_members (db w) (session w)))).
  { unfold c', state_after. by rewrite fetchLeaderboard_served. }
  split.
  - intros style icon m Hin. unfold Leaderboard.podium_cards in Hin.
    apply list_elem_of_fmap in Hin as ([position m'] & Heq & Hin).
    unfold Leaderboard.PodiumCard in Heq. simpl in Heq. simplify_eq.
    apply podium_positions in Hin as [Hpos Hm].
    rewrite Hs in Hm. apply with_position_rank in Hm.
    assert (Member.rank m' = Some position) as -> by (rewrite Hm; f_equal; lia).
    split; [done|]. split; [done|].
    assert (position = 1 ∨ position = 2 ∨ position = 3) as [->|[->| ->]] by lia; done.
  - intros style icon m Hin. unfold Leaderboard.ranking_rows in Hin.
    apply list_elem_of_fmap in Hin as (m' & Heq & Hin).
    unfold Leaderboard.LeaderboardRow in Heq. simplify_eq.
    apply list_elem_of_lookup in Hin as [i Hi].
    unfold Leaderboard.remaining in Hi. rewrite lookup_drop, Hs in Hi.
    apply with_position_rank in Hi. rewrite Hi.
    apply rank_above_3_default. lia.
Qed.

Lemma medals_go_to_the_podium_only_witness :
  let w := sample_world [ann; bob; cy; ann] calm in
  let c' := state_after Leaderboard.fetchLeaderboard w Leaderboard.initial in
  (∀ style icon m, (style, icon, m) ∈ Leaderboard.podium_cards c' →
     style = Leaderboard.getRankStyle (Member.rank m)
     ∧ icon = Leaderboard.getRankIcon (Member.rank m)
     ∧ icon ≠ Leaderboard.Award)
  ∧ (∀ style icon m, (style, icon, m) ∈ Leaderboard.ranking_rows c' →
       icon = Leaderboard.Award
       ∧ style = "bg-gradient-card border border-border shadow-card hover:bg-accent/20").
Proof.
  apply (medals_go_to_the_podium_only (sample_world [ann; bob; cy; ann] calm)
           Leaderboard.initial).
  reflexivity.
Defined.

(** ** The admin gate page *)

(** Split a membership in the calls sent so far into its cases. *)
Ltac sent_cases Hq :=
  rewrite ?elem_of_app, ?list_elem_of_singleton in Hq; intuition eauto.

(** The courses [checkAuthAndAdmin] can take, from a state that is not
    admin. *)
Lemma checkAuthAndAdmin_run w c :
  Admin.isAdmin c = false →
  let c' := state_after Admin.checkAuthAndAdmin w c in
  let w' := world_after Admin.checkAuthAndAdmin w c in
  Admin.loading c' = false
  ∧ db w' = db w
  ∧ (∀ q, q ∈ sent w' → q ∈ sent w ∨ q = GetUser ∨ ∃ u, q = SelectAdminRole u)
  ∧ (Admin.render c' = Admin.AdminPanelPage
     ↔ ev_fault (env w (tick w)) = NoFault
       ∧ ev_fault (env w (S (tick w))) = NoFault
       ∧ ∃ u, session w = Some u ∧ returns_admin_row (db w) u).
Proof.
  intros Hc. cbv zeta. unfold world_after, state_after.
  destruct (Admin.checkAuthAndAdmin w c) as [[o w'] c'] eqn:Hrun. simpl.
  unfold Admin.checkAuthAndAdmin, finally, try_catch in Hrun.
  unfold bind at 1 in Hrun. unfold call at 1 in Hrun.
  destruct (ev_fault (env w (tick w))) eqn:Hf.
  - unfold serve at 1 in Hrun. destruct (session w) as [u|] eqn:Hs; simpl in Hrun.
    + unfold Admin.checkAdminStatus, try_catch, bind, call in Hrun. simpl in Hrun.
      destruct (ev_fault (env w (S (tick w)))) eqn:Hf2.
      * unfold serve in Hrun.
        match type of Hrun with context [truthy ?x] =>
          destruct (truthy x) eqn:Ht
        end; cbn in Hrun; unfold toast in Hrun; simplify_eq; simpl.
        -- apply single_truthy in Ht.
           split; [done|]. split; [done|]. split.
           { intros q Hq. sent_cases Hq. }
           unfold Admin.render. simpl. split; [|done]. intros _.
           split; [done|]. split; [done|]. by exists u.
        -- split; [done|]. split; [done|]. split.
           { intros q Hq. sent_cases Hq. }
           unfold Admin.render. simpl. split; [done|].
           intros (_ & _ & u' & [= <-] & Hr). apply single_truthy in Hr. congruence.
      * cbn in Hrun. unfold toast in Hrun. simplify_eq. simpl.
        split; [done|]. split; [done|]. split.
        { intros q Hq. sent_cases Hq. }
        unfold Admin.render. simpl. split; [done|]. by intros (_ & ? & _).
      * cbn in Hrun. unfold toast in Hrun. simplify_eq. simpl.
        split; [done|]. split; [done|]. split.
        { intros q Hq. sent_cases Hq. }
        unfold Admin.render. simpl. split; [done|]. by intros (_ & ? & _).
    + cbn in Hrun. simplify_eq. simpl. split; [done|]. split; [done|]. split.
      { intros q Hq. sent_cases Hq. }
      unfold Admin.render. simpl. split; [done|]. by intros (_ & _ & u & ? & _).
  - cbn in Hrun. simplify_eq. simpl. split; [done|]. split; [done|]. split.
    { intros q Hq. sent_cases Hq. }
    unfold Admin.render. simpl. split; [done|]. by intros (? & _).
  - cbn in Hrun. unfold console_error in Hrun. simplify_eq. simpl.
    split; [done|]. split; [done|]. split.
    { intros q Hq. sent_cases Hq. }
    unfold Admin.render. simpl. rewrite Hc. split; [by destruct (Admin.user c)|].
    by intros (? & _).
Qed.

Lemma gate_page_needs_admin_row w c :
  Admin.isAdmin c = false →
  Admin.render (state_after Admin.checkAuthAndAdmin w c) = Admin.AdminPanelPage →
  ev_fault (env w (tick w)) = NoFault
  ∧ ev_fault (env w (S (tick w))) = NoFault
  ∧ ∃ u, session w = Some u ∧ returns_admin_row (db w) u.
Proof.
  intros Hc Hr. by apply (checkAuthAndAdmin_run w c Hc).
Qed.

(** X13. Opening the gate page ([checkAuthAndAdmin], from a state that is not
    admin) always ends the loading screen, changes nothing in the database
    and issues only the session lookup and the role query.  The admin panel
    is rendered exactly when the session lookup is served with a user and
    the role query is served with an admin row for that user. *)
Theorem gate_opens_for_admin_row_only w c :
  Admin.isAdmin c = false →
  let c' := state_after Admin.checkAuthAndAdmin w c in
  let w' := world_after Admin.checkAuthAndAdmin w c in
  Admin.loading c' = false
  ∧ db w' = db w
  ∧ (∀ q, q ∈ sent w' → q ∈ sent w ∨ q = GetUser ∨ ∃ u, q = SelectAdminRole u)
  ∧ (Admin.render c' = Admin.AdminPanelPage
     ↔ ev_fault (env w (tick w)) = NoFault
       ∧ ev_fault (env w (S (tick w))) = NoFault
       ∧ ∃ u, session w = Some u ∧ returns_admin_row (db w) u).
Proof. apply checkAuthAndAdmin_run. Qed.

Lemma gate_opens_for_admin_row_only_witness :
  let w := sample_world [ann] calm in
  let c' := state_after Admin.checkAuthAndAdmin w Admin.initial in
  let w' := world_after Admin.checkAuthAndAdmin w Admin.initial in
  Admin.loading c' = false
  ∧ db w' = db w
  ∧ (∀ q, q ∈ sent w' → q ∈ sent w ∨ q = GetUser ∨ ∃ u, q = SelectAdminRole u)
  ∧ (Admin.render c' = Admin.AdminPanelPage
     ↔ ev_fault (env w (tick w)) = NoFault
       ∧ ev_fault (env w (S (tick w))) = NoFault
       ∧ ∃ u, session w = Some u ∧ returns_admin_row (db w) u).
Proof.
  apply (gate_opens_for_admin_row_only (sample_world [ann] calm) Admin.initial).
  reflexivity.
Defined.

(** X14. The session-change callback of the gate page: a sign-out always
    ends with no user and no admin status, without any call; a sign-in sets
    the user and grants admin status exactly when the role query is served
    with an admin row for that user; any other event (a refreshed token, an
    updated user) changes nothing, so the role is not looked up again. *)
Theorem onAuthStateChange_transitions w c :
  Admin.onAuthStateChange "SIGNED_OUT" None w c
  = (Done tt, w, Admin.mkState None false (Admin.loading c))
  ∧ (∀ u, let c' := state_after (Admin.onAuthStateChange "SIGNED_IN" (Some u)) w c in
          Admin.user c' = Some u
          ∧ Admin.loading c' = Admin.loading c
          ∧ (Admin.isAdmin c' = true
             ↔ ev_fault (env w (tick w)) = NoFault ∧ returns_admin_row (db w) u))
  ∧ (∀ event su, event ≠ "SIGNED_IN" → event ≠ "SIGNED_OUT" →
                 Admin.onAuthStateChange event su w c = (Done tt, w, c)).
Proof.
  split.
  { unfold Admin.onAuthStateChange. rewrite decide_False by done.
    by rewrite decide_True. }
  split.
  - intros u. cbv zeta. unfold Admin.onAuthStateChange.
    rewrite decide_True by done.
    unfold state_after, bind, Admin.setUser, modify.
    set (c1 := Admin.mkState (Some u) (Admin.isAdmin c) (Admin.loading c)).
    destruct (admin_checkAdminStatus_run u w c1) as [(Hf & Hr & Hst)|(Hn & Hst & _)];
      unfold state_after in Hst;
      destruct (Admin.checkAdminStatus (Some u) w c1) as [[o w'] c'];
      simpl in Hst; subst c'; simpl.
    + done.
    + split; [done|]. split; [done|]. split; [done|]. intros H. by destruct Hn.
  - intros event su H1 H2. unfold Admin.onAuthStateChange.
    by rewrite !decide_False.
Qed.

(** ** Roles *)

Lemma filter_same_key_length {A B} (f : A → B) (P : A → Prop) `{∀ x, Decision (P x)}
    (k : B) (l : list A) :
  NoDup (f <$> l) → (∀ x, P x → f x = k) → (length (filter P l) ≤ 1)%nat.
Proof.
  intros Hnd HP. induction l as [|x l IH]; [simpl; lia|].
  rewrite fmap_cons in Hnd. apply NoDup_cons in Hnd as [Hx Hnd].
  rewrite filter_cons. case_decide as HPx; [|by apply IH].
  rewrite (filter_nil_not_elem_of P l); [simpl; lia|].
  intros y Hy HPy. apply Hx. rewrite (HP x HPx), <- (HP y HPy).
  by apply list_elem_of_fmap_2.
Qed.

(** X15. Under the uniqueness constraint of [user_roles], the role query of
    the client returns a row for a user exactly when [has_role] holds of that
    user and the admin role: the check of the pages and the check of the
    policies agree. *)
Theorem admin_query_agrees_with_has_role d u :
  unique_user_role d →
  (returns_admin_row d u ↔ has_role d u admin = true).
Proof.
  intros Hu. split; [apply returns_admin_row_has_role|].
  unfold has_role. rewrite bool_decide_eq_true, Exists_exists.
  intros (r & Hin & Hr). unfold returns_admin_row.
  set (P := λ r : UserRole.t, UserRole.user_id r = u ∧ UserRole.role r = admin).
  assert (Hlen : (length (filter P (user_roles d)) ≤ 1)%nat).
  { apply (filter_same_key_length (λ r, (UserRole.user_id r, UserRole.role r)) P
             (u, admin)); [done|].
    intros x [-> ->]. done. }
  assert (Hrin : r ∈ filter P (user_roles d)) by (by apply list_elem_of_filter).
  destruct (filter P (user_roles d)) as [|r1 [|r2 l]] eqn:Hfl.
  - by apply elem_of_nil in Hrin.
  - by exists r1.
  - simpl in Hlen. lia.
Qed.

Lemma admin_query_agrees_with_has_role_witness :
  returns_admin_row (sample_database []) "u" ↔ has_role (sample_database []) "u" admin = true.
Proof.
  apply (admin_query_agrees_with_has_role (sample_database []) "u").
  unfold unique_user_role. compute_done.
Defined.

(** ** Signing up, continued *)

(** X16. On a database that obeys the keys of its identity tables, a signup
    commits exactly when the identity is new, has an e-mail address, and the
    id drawn for its role row is free; otherwise the whole signup is rolled
    back.  In particular an identity without e-mail address (a phone signup)
    cannot be created. *)
Theorem signup_commits_iff now rid NEW d :
  identities_consistent d →
  (is_Some (signup now rid NEW d)
   ↔ (AuthUser.id NEW ∉ AuthUser.id <$> auth_users d)
     ∧ is_Some (AuthUser.email NEW)
     ∧ (rid ∉ UserRole.id <$> user_roles d)).
Proof.
  intros Hd. split.
  - intros [d' Hs]. apply signup_Some in Hs as (email & He & Hid & Hrid & _).
    split; [done|]. split; [by rewrite He|done].
  - intros (Hid & [email He] & Hrid). by eapply signup_commits.
Qed.

Lemma signup_commits_iff_witness :
  let NEW := AuthUser.mk "v" None None in
  is_Some (signup 5 "r9" NEW (sample_database []))
  ↔ (AuthUser.id NEW ∉ AuthUser.id <$> auth_users (sample_database []))
    ∧ is_Some (AuthUser.email NEW)
    ∧ ("r9" ∉ UserRole.id <$> user_roles (sample_database [])).
Proof.
  apply (signup_commits_iff 5 "r9" (AuthUser.mk "v" None None) (sample_database [])).
  unfold identities_consistent. split; [compute_done|]. split.
  - intros p Hp. apply list_elem_of_singleton in Hp as ->. compute_done.
  - intros r Hr. repeat (apply elem_of_cons in Hr as [->|Hr]; [compute_done|]).
    by apply elem_of_nil in Hr.
Defined.

(** X17. A user who has just signed up holds the role [user] and not the
    role [admin]: [has_role] says so, the role query of the gate page returns
    no row for them, and the gate page opened in their session on that
    database does not render the admin panel, whatever the calls do. *)
Theorem new_user_is_not_admin now rid NEW d d' :
  identities_consistent d →
  signup now rid NEW d = Some d' →
  has_role d' (AuthUser.id NEW) user = true
  ∧ has_role d' (AuthUser.id NEW) admin = false
  ∧ ¬ returns_admin_row d' (AuthUser.id NEW)
  ∧ ∀ w c, db w = d' → session w = Some (AuthUser.id NEW) →
           Admin.isAdmin c = false →
           Admin.render (state_after Admin.checkAuthAndAdmin w c)
           ≠ Admin.AdminPanelPage.
Proof.
  intros (Hnd & Hp & Hr) Hs.
  apply signup_Some in Hs as (email & He & Hid & Hrid & ->).
  assert (Hno : ∀ r, r ∈ user_roles d → UserRole.user_id r ≠ AuthUser.id NEW).
  { intros r Hin Heq. apply Hid. rewrite <- Heq. by apply Hr. }
  assert (Hadm : has_role
            (mkDatabase (auth_users d ++ [NEW])
               (profiles d ++ [Profile.mk (AuthUser.id NEW) email
                                 (Some (default email (AuthUser.full_name_meta NEW)))
                                 user now now])
               (user_roles d ++ [UserRole.mk rid (AuthUser.id NEW) user])
               (leaderboard_members d))
            (AuthUser.id NEW) admin = false).
  { unfold has_role. apply bool_decide_eq_false. rewrite Exists_exists. simpl.
    intros (r & Hin & Hu & Hrole). apply elem_of_app in Hin as [Hin|Hin].
    - by apply (Hno r).
    - apply list_elem_of_singleton in Hin. by subst. }
  assert (Hrow : ¬ returns_admin_row
            (mkDatabase (auth_users d ++ [NEW])
               (profiles d ++ [Profile.mk (AuthUser.id NEW) email
                                 (Some (default email (AuthUser.full_name_meta NEW)))
                                 user now now])
               (user_roles d ++ [UserRole.mk rid (AuthUser.id NEW) user])
               (leaderboard_members d))
            (AuthUser.id NEW)).
  { intros Hrow. apply returns_admin_row_has_role in Hrow. congruence. }
  split.
  { unfold has_role. apply bool_decide_eq_true. rewrite Exists_exists. simpl.
    exists (UserRole.mk rid (AuthUser.id NEW) user). split; [|done].
    apply elem_of_app. right. left. }
  split; [done|]. split; [done|].
  intros w c Hdb Hses Hc Hrender.
  apply (gate_page_needs_admin_row w c Hc) in Hrender as (_ & _ & u & Hu & Hrow').
  rewrite Hses in Hu. injection Hu as <-. rewrite Hdb in Hrow'. by apply Hrow.
Qed.

Lemma new_user_is_not_admin_witness :
  let NEW := AuthUser.mk "v" (Some "v@example.org") None in
  let d' := mkDatabase
              (auth_users (sample_database []) ++ [NEW])
              (profiles (sample_database [])
               ++ [Profile.mk "v" "v@example.org" (Some "v@example.org") user 5 5])
              (user_roles (sample_database []) ++ [UserRole.mk "r9" "v" user])
              [] in
  has_role d' (AuthUser.id NEW) user = true
  ∧ has_role d' (AuthUser.id NEW) admin = false
  ∧ ¬ returns_admin_row d' (AuthUser.id NEW)
  ∧ ∀ w c, db w = d' → session w = Some (AuthUser.id NEW) →
           Admin.isAdmin c = false →
           Admin.render (state_after Admin.checkAuthAndAdmin w c)
           ≠ Admin.AdminPanelPage.
Proof.
  apply (new_user_is_not_admin 5 "r9" (AuthUser.mk "v" (Some "v@example.org") None)
           (sample_database [])).
  - unfold identities_consistent. split; [compute_done|]. split.
    + intros p Hp. apply list_elem_of_singleton in Hp as ->. compute_done.
    + intros r Hr. repeat (apply elem_of_cons in Hr as [->|Hr]; [compute_done|]).
      by apply elem_of_nil in Hr.
  - reflexivity.
Defined.

(** ** Avatar fallbacks *)

Lemma split_space_not_nil s : split_space s ≠ [].
Proof.
  destruct s as [|c s]; simpl; [done|].
  destruct (Ascii.eqb c " "); [done|]. by destruct (split_space s).
Qed.

Lemma split_space_app_space a b :
  split_space (a +:+ String " " b) = split_space a ++ split_space b.
Proof.
  induction a as [|c a IH]; [done|].
  change (String c a +:+ String " " b) with (String c (a +:+ String " " b)).
  simpl. rewrite IH. destruct (Ascii.eqb c " "); [done|].
  pose proof (split_space_not_nil a). by destruct (split_space a).
Qed.

Lemma join_empty_app l1 l2 : join_empty (l1 ++ l2) = join_empty l1 +:+ join_empty l2.
Proof.
  induction l1 as [|p l1 IH]; [done|]. simpl. rewrite IH.
  unfold String.app. clear IH. induction p as [|c p IHp]; [done|].
  simpl. by rewrite IHp.
Qed.

(** A piece of a split holds no space. *)
Lemma split_space_pieces s piece :
  piece ∈ split_space s → ∀ c, c ∈ list_ascii_of_string piece → c ≠ " "%char.
Proof.
  revert piece. induction s as [|c s IH]; intros piece Hin x Hx.
  - apply list_elem_of_singleton in Hin as ->. by apply elem_of_nil in Hx.
  - simpl in Hin. destruct (Ascii.eqb c " ") eqn:Hc.
    + apply elem_of_cons in Hin as [->|Hin]; [by apply elem_of_nil in Hx|].
      by apply (IH piece).
    + pose proof (split_space_not_nil s).
      destruct (split_space s) as [|p ps] eqn:Hs; [done|].
      apply elem_of_cons in Hin as [->|Hin].
      * simpl in Hx. apply elem_of_cons in Hx as [->|Hx].
        -- intros ->. by rewrite Ascii.eqb_refl in Hc.
        -- apply (IH p); [left|done].
      * apply (IH piece); [by right|done].
Qed.

Lemma initials_chars l x :
  x ∈ list_ascii_of_string (join_empty (first_char <$> l)) →
  ∃ piece, piece ∈ l ∧ x ∈ list_ascii_of_string piece.
Proof.
  induction l as [|p l IH]; intros Hx; [by apply elem_of_nil in Hx|].
  rewrite fmap_cons in Hx. simpl in Hx. destruct p as [|c p]; simpl in Hx.
  - destruct (IH Hx) as (piece & Hin & Hc). exists piece. split; [by right|done].
  - apply elem_of_cons in Hx as [->|Hx].
    + exists (String c p). split; [left|simpl; left].
    + destruct (IH Hx) as (piece & Hin & Hc). exists piece. split; [by right|done].
Qed.

(** X18. The avatar fallback of a name holds no space, and the fallback of
    two names joined by a space is the fallbacks of the two joined: every
    word gives its first character and the empty pieces that doubled,
    leading or trailing spaces produce give nothing. *)
Theorem initials_of_words a b :
  initials (a +:+ String " " b) = initials a +:+ initials b
  ∧ (∀ c, c ∈ list_ascii_of_string (initials a) → c ≠ " "%char)
  ∧ initials EmptyString = EmptyString
  ∧ initials (String " " a) = initials a
  ∧ initials (a +:+ " ") = initials a.
Proof.
  split; [|split; [|split; [|split]]].
  - unfold initials. by rewrite split_space_app_space, fmap_app, join_empty_app.
  - intros c Hc. unfold initials in Hc.
    apply initials_chars in Hc as (piece & Hin & Hc).
    by apply (split_space_pieces a piece).
  - reflexivity.
  - reflexivity.
  - unfold initials.
    change (a +:+ " ") with (a +:+ String " " EmptyString).
    rewrite split_space_app_space, fmap_app, join_empty_app. simpl.
    unfold String.app. generalize (join_empty (first_char <$> split_space a)).
    intros s. induction s as [|c s IH]; [done|]. simpl. by rewrite IH.
Qed.

(** The fallbacks of the sample names of the migration. *)
Example initials_of_sample_names :
  initials "Jordyn Kenter" = "JK" ∧ initials "Cy" = "C" ∧ initials " a  b " = "ab".
Proof. repeat split; reflexivity. Qed.
